(** * USGS earthquake feed filter: a shallow embedding of [solution.py]

    The program fetches a JSON feed of earthquakes, keeps the Californian
    ones, and prints one line per kept entry.  This development embeds the
    class [Earthquakes] of [solution.py] together with the fragments of the
    Python runtime its methods call ([str.split], [str.strip], [str] of a
    number, true division, [datetime.fromtimestamp], [strftime],
    [urlencode]) and proves properties of the methods. *)

From Stdlib Require Import ZArith NArith List String Ascii DecimalString Lia.
From stdpp Require Import base list.

(** ** Python strings

    A Python [str] is a sequence of Unicode code points. *)

Module PyStr.

Local Open Scope N_scope.

Definition char := N.
Definition str := list char.

(** A literal of the source, written with ASCII characters only. *)
Definition py (s : string) : str := map N_of_ascii (list_ascii_of_string s).
Global Arguments py s%_string.

(** [str.isspace] on one code point (the table of CPython's
    [_PyUnicode_IsWhitespace]). *)
Definition isspace (c : char) : bool :=
  ((0x09 <=? c) && (c <=? 0x0D)) || ((0x1C <=? c) && (c <=? 0x20))
  || (c =? 0x85) || (c =? 0xA0) || (c =? 0x1680)
  || ((0x2000 <=? c) && (c <=? 0x200A))
  || (c =? 0x2028) || (c =? 0x2029) || (c =? 0x202F) || (c =? 0x205F)
  || (c =? 0x3000).

Fixpoint lstrip (s : str) : str :=
  match s with
  | c :: s' => if isspace c then lstrip s' else s
  | [] => []
  end.

Definition rstrip (s : str) : str := reverse (lstrip (reverse s)).

(** [s.strip()] *)
Definition strip (s : str) : str := rstrip (lstrip s).

(** [s.split(sep)] for a separator of one character: the pieces between
    the occurrences of [sep], one more than there are occurrences. *)
Fixpoint split (sep : char) (s : str) : list str :=
  match s with
  | [] => [[]]
  | c :: s' =>
      if c =? sep then [] :: split sep s'
      else match split sep s' with
           | piece :: pieces => (c :: piece) :: pieces
           | [] => [[c]]
           end
  end.

(** [sep.join(pieces)] *)
Fixpoint join (sep : str) (pieces : list str) : str :=
  match pieces with
  | [] => []
  | [p] => p
  | p :: ps => p ++ sep ++ join sep ps
  end.

(** [str(n)] for an [int]. *)
Definition str_int (n : Z) : str := py (NilZero.string_of_int (Z.to_int n)).

End PyStr.
Export PyStr.

(** The separator [','] of [_filter_earthquakes]. *)
Definition comma : char := 0x2C%N.

(** ** Python floats

    A [float] is an IEEE 754 binary64 value.  A finite value is
    [(-1)^neg * m * 2^e]; the operations below keep it in canonical form:
    [2^52 <= m < 2^53] with [-1074 <= e <= 971] (normal), or [m < 2^52] with
    [e = -1074] (subnormal and zero).  Every operation is the exact rational
    result rounded to nearest, ties to even. *)

Module PyFloat.

Local Open Scope Z_scope.

Inductive float :=
| Nan
| Inf (neg : bool)
| Fin (neg : bool) (m e : Z).

(** [n / d] rounded to the nearest integer, ties to even ([0 <= n], [0 < d]). *)
Definition rne_div (n d : Z) : Z :=
  let q := n / d in
  match 2 * (n mod d) ?= d with
  | Lt => q
  | Gt => q + 1
  | Eq => if Z.even q then q else q + 1
  end.

(** [floor (log2 (n / d))] for positive [n] and [d]. *)
Definition ilog2_ratio (n d : Z) : Z :=
  let l := Z.log2 n - Z.log2 d in
  if (if 0 <=? l then d * 2 ^ l <=? n else d <=? n * 2 ^ (- l))
  then l else l - 1.

(** [n / (d * 2^e)] rounded to an integer. *)
Definition scaled_rne (n d e : Z) : Z :=
  if 0 <=? e then rne_div n (d * 2 ^ e) else rne_div (n * 2 ^ (- e)) d.

(** The binary64 value nearest to [n / d] ([0 <= n], [0 < d]), with the
    given sign; too large a quotient gives an infinity. *)
Definition round_ratio (neg : bool) (n d : Z) : float :=
  if n =? 0 then Fin neg 0 (-1074)
  else
    let e := Z.max (ilog2_ratio n d - 52) (-1074) in
    let m := scaled_rne n d e in
    let '(m, e) := if m =? 2 ^ 53 then (2 ^ 52, e + 1) else (m, e) in
    if 971 <? e then Inf neg else Fin neg m e.

(** A finite value as the fraction [num / den], [den] a power of two. *)
Definition num (m e : Z) : Z := m * 2 ^ Z.max e 0.
Definition den (e : Z) : Z := 2 ^ Z.max (- e) 0.

(** [float(literal)] and [json.loads(literal)] for the decimal literal
    [D * 10^k] ([0 <= D]): correctly rounded. *)
Definition of_decimal (neg : bool) (D k : Z) : float :=
  if 0 <=? k then round_ratio neg (D * 10 ^ k) 1
  else round_ratio neg D (10 ^ (- k)).

(** [(double) n] for an integer [n]. *)
Definition of_Z (n : Z) : float := round_ratio (n <? 0) (Z.abs n) 1.

(** [a * b] on doubles. *)
Definition mul (a b : float) : float :=
  match a, b with
  | Nan, _ | _, Nan => Nan
  | Inf sa, Inf sb => Inf (xorb sa sb)
  | Inf sa, Fin sb mb _ | Fin sb mb _, Inf sa =>
      if mb =? 0 then Nan else Inf (xorb sa sb)
  | Fin sa ma ea, Fin sb mb eb =>
      round_ratio (xorb sa sb) (num (ma * mb) (ea + eb)) (den (ea + eb))
  end.

(** *** [repr]: the shortest decimal string that reads back as the value *)

Definition ndigits (n : Z) : Z := Z.of_nat (length (str_int n)).

(** [floor (log10 (n / d))] for positive [n] and [d]. *)
Definition ilog10_ratio (n d : Z) : Z :=
  let l := ndigits n - ndigits d in
  if (if 0 <=? l then d * 10 ^ l <=? n else d <=? n * 10 ^ (- l))
  then l else l - 1.

Definition float_eqb (a b : float) : bool :=
  match a, b with
  | Fin sa ma ea, Fin sb mb eb => Bool.eqb sa sb && (ma =? mb) && (ea =? eb)
  | Inf sa, Inf sb => Bool.eqb sa sb
  | _, _ => false
  end.

(** The decimal [c * 10^p] with [n] significant digits that [repr] prints
    for the positive value [m * 2^e], when one of the two [n]-digit
    decimals around the value reads back as it: of those that do, the one
    nearer to the value, the one with an even last digit on a tie. *)
Definition candidate (m e n : Z) : option (Z * Z) :=
  let N := num m e in
  let D := den e in
  let p := ilog10_ratio N D - (n - 1) in
  let nu := if 0 <=? p then N else N * 10 ^ (- p) in
  let de := if 0 <=? p then D * 10 ^ p else D in
  let lo := nu / de in
  let r := nu mod de in
  let hi := lo + 1 in
  let oklo := float_eqb (of_decimal false lo p) (Fin false m e) in
  let okhi := float_eqb (of_decimal false hi p) (Fin false m e) in
  if oklo && okhi then
    match 2 * r ?= de with
    | Lt => Some (lo, p)
    | Gt => Some (hi, p)
    | Eq => Some (if Z.even lo then lo else hi, p)
    end
  else if oklo then Some (lo, p)
  else if okhi then Some (hi, p)
  else None.

Fixpoint shortest_from (fuel : nat) (n m e : Z) : option (Z * Z) :=
  match fuel with
  | O => None
  | S fuel' =>
      match candidate m e n with
      | Some c => Some c
      | None => shortest_from fuel' (n + 1) m e
      end
  end.

(** Seventeen significant digits identify every binary64 value. *)
Definition shortest (m e : Z) : Z * Z :=
  match shortest_from 17 1 m e with
  | Some c => c
  | None =>
      let p := ilog10_ratio (num m e) (den e) - 16 in
      (if 0 <=? p then rne_div (num m e) (den e * 10 ^ p)
       else rne_div (num m e * 10 ^ (- p)) (den e), p)
  end.

Definition zero_char : char := 0x30%N.

Definition rstrip_zeros (ds : str) : str :=
  let fix go (s : str) : str :=
    match s with
    | c :: s' => if (c =? zero_char)%N then go s' else s
    | [] => []
    end in
  reverse (go (reverse ds)).

Definition zeros (n : Z) : str := replicate (Z.to_nat n) zero_char.

(** The exponent of the scientific form: a sign and at least two digits. *)
Definition exponent_text (x : Z) : str :=
  py (if x <? 0 then "-" else "+")
  ++ (if Z.abs x <? 10 then [zero_char] else []) ++ str_int (Z.abs x).

(** The digits [ds] (no trailing zero) with the decimal point before the
    digit of index [decpt]: CPython's [format_float_short] for [repr]. *)
Definition place_point (ds : str) (decpt : Z) : str :=
  let nd := Z.of_nat (length ds) in
  if (decpt <=? -4) || (16 <? decpt) then
    take 1 ds ++ (if 1 <? nd then py "." ++ drop 1 ds else [])
    ++ py "e" ++ exponent_text (decpt - 1)
  else if decpt <=? 0 then py "0." ++ zeros (- decpt) ++ ds
  else if nd <=? decpt then ds ++ zeros (decpt - nd) ++ py ".0"
  else take (Z.to_nat decpt) ds ++ py "." ++ drop (Z.to_nat decpt) ds.

(** [repr(x)], which is also [str(x)], for a [float]. *)
Definition float_repr (x : float) : str :=
  match x with
  | Nan => py "nan"
  | Inf neg => py (if neg then "-inf" else "inf")
  | Fin neg m e =>
      py (if neg then "-" else "")
      ++ (if m =? 0 then py "0.0"
          else
            let '(c, p) := shortest m e in
            let ds := str_int c in
            place_point (rstrip_zeros ds) (p + Z.of_nat (length ds)))
  end.

End PyFloat.

(** ** Exceptions *)

Inductive exn :=
| URLError | JSONDecodeError | KeyError | IndexError
| ZeroDivisionError | OverflowError | ValueError | OSError.

Inductive result (A : Type) :=
| Ok (a : A)
| Raise (e : exn).
Arguments Ok {A} a.
Arguments Raise {A} e.

(** ** [datetime.fromtimestamp] and [strftime] *)

Module PyTime.

Import PyFloat.
Local Open Scope Z_scope.

(** [a / b] on [int]s: the correctly rounded quotient. *)
Definition true_div (a b : Z) : result float :=
  if b =? 0 then Raise ZeroDivisionError
  else
    match round_ratio (xorb (a <? 0) (b <? 0)) (Z.abs a) (Z.abs b) with
    | Inf _ => Raise OverflowError
    | x => Ok x
    end.

(** C's [modf] on a finite double: the integral part, held as an integer,
    and the fractional part; both carry the sign of the argument. *)
Definition modf (neg : bool) (m e : Z) : Z * float :=
  let ip := if 0 <=? e then m * 2 ^ e else m / 2 ^ (- e) in
  let fr := if 0 <=? e then 0 else m mod 2 ^ (- e) in
  (if neg then - ip else ip, round_ratio neg fr (den e)).

(** [pytime_round_half_even]: the nearest integer, ties to even. *)
Definition round_half_even (x : float) : Z :=
  match x with
  | Fin neg m e =>
      let r := scaled_rne m 1 (- e) in
      if neg then - r else r
  | _ => 0
  end.

(** [_PyTime_ObjectToTimeval(t, ROUND_HALF_EVEN)] on a [float]: whole
    seconds and microseconds.  The integral doubles of the C code are held
    as integers: one is added to or taken from the integral part only when
    the fractional part is not zero, where the double sum is exact. *)
Definition object_to_timeval (t : float) : result (Z * Z) :=
  match t with
  | Nan => Raise ValueError
  | Inf _ => Raise OverflowError
  | Fin neg m e =>
      let '(intpart, frac) := modf neg m e in
      let floatpart := round_half_even (mul frac (of_Z 1000000)) in
      let '(intpart, floatpart) :=
        if 1000000 <=? floatpart then (intpart + 1, floatpart - 1000000)
        else if floatpart <? 0 then (intpart - 1, floatpart + 1000000)
        else (intpart, floatpart) in
      if (- 2 ^ 63 <=? intpart) && (intpart <=? 2 ^ 63)
      then Ok (intpart, floatpart)
      else Raise OverflowError
  end.

(** A broken-down UTC time. *)
Record tm := {
  tm_year : Z; tm_mon : Z; tm_mday : Z;
  tm_hour : Z; tm_min : Z; tm_sec : Z
}.

(** The proleptic Gregorian date of the day [z] days after 1970-01-01. *)
Definition civil_from_days (z : Z) : Z * Z * Z :=
  let z := z + 719468 in
  let era := z / 146097 in
  let doe := z mod 146097 in
  let yoe := (doe - doe / 1460 + doe / 36524 - doe / 146096) / 365 in
  let doy := doe - (365 * yoe + yoe / 4 - yoe / 100) in
  let mp := (5 * doy + 2) / 153 in
  let d := doy - (153 * mp + 2) / 5 + 1 in
  let m := if mp <? 10 then mp + 3 else mp - 9 in
  (yoe + era * 400 + (if m <=? 2 then 1 else 0), m, d).

(** The inverse: days from 1970-01-01 to the date. *)
Definition days_from_civil (y m d : Z) : Z :=
  let y := y - (if m <=? 2 then 1 else 0) in
  let era := y / 400 in
  let yoe := y mod 400 in
  let doy := (153 * (if 2 <? m then m - 3 else m + 9) + 2) / 5 + d - 1 in
  let doe := yoe * 365 + yoe / 4 - yoe / 100 + doy in
  era * 146097 + doe - 719468.

(** [gmtime]: seconds since the epoch to UTC calendar fields, a day being
    86400 seconds. *)
Definition gmtime (sec : Z) : tm :=
  let '(y, m, d) := civil_from_days (sec / 86400) in
  let rem := sec mod 86400 in
  {| tm_year := y; tm_mon := m; tm_mday := d;
     tm_hour := rem / 3600; tm_min := rem mod 3600 / 60; tm_sec := rem mod 60 |}.

(** [timegm]: UTC calendar fields to seconds since the epoch. *)
Definition timegm (t : tm) : Z :=
  days_from_civil (tm_year t) (tm_mon t) (tm_mday t) * 86400
  + tm_hour t * 3600 + tm_min t * 60 + tm_sec t.

(** [datetime.fromtimestamp(t, tz=timezone.utc)].  The C library refuses a
    year that does not fit its [int] field, the [datetime] constructor a
    year outside 1..9999. *)
Definition fromtimestamp_utc (t : float) : result tm :=
  match object_to_timeval t with
  | Raise e => Raise e
  | Ok (sec, _) =>
      let dt := gmtime sec in
      if (tm_year dt - 1900 <? - 2 ^ 31) || (2 ^ 31 <=? tm_year dt - 1900)
      then Raise OSError
      else if (tm_year dt <? 1) || (9999 <? tm_year dt) then Raise ValueError
      else Ok dt
  end.

Definition digit (n : Z) : char := (0x30 + Z.to_N n)%N.

(** A field printed with two digits. *)
Definition pad2 (n : Z) : str := [digit (n / 10); digit (n mod 10)].

(** [dt.strftime('%Y-%m-%dT%H:%M:%S%z')] for a UTC [datetime].  As the C
    library does, [%Y] prints the year in decimal without padding. *)
Definition strftime_iso (dt : tm) : str :=
  str_int (tm_year dt) ++ py "-" ++ pad2 (tm_mon dt) ++ py "-"
  ++ pad2 (tm_mday dt) ++ py "T" ++ pad2 (tm_hour dt) ++ py ":"
  ++ pad2 (tm_min dt) ++ py ":" ++ pad2 (tm_sec dt) ++ py "+0000".

End PyTime.

(** [Earthquakes._convert_time]: epoch milliseconds to ISO text.  The
    timestamp of the feed is an [int], which [int(unix_time)] returns
    unchanged. *)
Definition _convert_time (unix_time : Z) : result str :=
  match PyTime.true_div unix_time 1000 with
  | Raise e => Raise e
  | Ok t =>
      match PyTime.fromtimestamp_utc t with
      | Raise e => Raise e
      | Ok str_time => Ok (PyTime.strftime_iso str_time)
      end
  end.

(** ** The feed and the network *)

(** A JSON number as [json.load] returns it: an [int] or a [float]. *)
Inductive number :=
| Int (n : Z)
| Float (x : PyFloat.float).

(** [str(v)] for a number. *)
Definition str_number (v : number) : str :=
  match v with
  | Int n => str_int n
  | Float x => PyFloat.float_repr x
  end.

(** [str(v)] for a magnitude, which the feed may give as [null]. *)
Definition str_mag (v : option number) : str :=
  match v with
  | Some n => str_number n
  | None => py "None"
  end.

(** One entry of the feed: [quakes['properties']['type']], [...['place']],
    [...['mag']], [...['time']] and [quakes['geometry']['coordinates']]. *)
Record Feature := {
  properties_type : str;
  properties_place : str;
  properties_mag : option number;
  properties_time : Z;
  geometry_coordinates : list number
}.

(** What [json.load(urlopen(url))] returns: the feed, with its list under
    ['features'], or an answer of the regions service, with the ['name'] of
    each entry of its ['neiccatalog']['features']. *)
Inductive document :=
| FeedDoc (features : list Feature)
| RegionsDoc (names : list str).

(** The network: the answer to a GET of each URL, the same during a run. *)
Definition World := str -> result document.

(** *** [urllib.parse.urlencode] *)

Module UrlEncode.

Local Open Scope N_scope.

Definition hex_digit (n : N) : char :=
  if n <? 10 then 0x30 + n else 0x41 + (n - 10).

Definition percent (byte : N) : str :=
  [0x25; hex_digit (byte / 16); hex_digit (byte mod 16)].

(** The UTF-8 bytes of a code point (the texts quoted here are ASCII). *)
Definition utf8 (c : char) : list N :=
  if c <? 0x80 then [c]
  else if c <? 0x800 then [0xC0 + c / 64; 0x80 + c mod 64]
  else if c <? 0x10000 then
    [0xE0 + c / 4096; 0x80 + c / 64 mod 64; 0x80 + c mod 64]
  else
    [0xF0 + c / 262144; 0x80 + c / 4096 mod 64; 0x80 + c / 64 mod 64;
     0x80 + c mod 64].

(** Letters, digits and [_.-~] are kept as they are. *)
Definition unreserved (c : char) : bool :=
  ((0x41 <=? c) && (c <=? 0x5A)) || ((0x61 <=? c) && (c <=? 0x7A))
  || ((0x30 <=? c) && (c <=? 0x39))
  || (c =? 0x5F) || (c =? 0x2E) || (c =? 0x2D) || (c =? 0x7E).

Definition quote_plus (s : str) : str :=
  flat_map (fun c =>
    if unreserved c then [c]
    else if c =? 0x20 then [0x2B]
    else flat_map percent (utf8 c)) s.

(** [urlencode] of a dict, given as its items in order. *)
Definition urlencode (items : list (str * str)) : str :=
  join (py "&")
    (map (fun kv => quote_plus (fst kv) ++ py "=" ++ quote_plus (snd kv)) items).

End UrlEncode.

(** ** The class [Earthquakes] *)

Record Earthquakes := {
  usgs_url : str;
  usgs_regions_url : str;
  filter_values : list str;
  filter_type : str;
  filtered_earthquakes : list Feature;
  filtered_earthquakes_log : str
}.

(** [self.filtered_earthquakes = l] and [self.filtered_earthquakes_log = log] *)
Definition with_filtered_earthquakes (this : Earthquakes) (l : list Feature)
  : Earthquakes :=
  {| usgs_url := usgs_url this;
     usgs_regions_url := usgs_regions_url this;
     filter_values := filter_values this;
     filter_type := filter_type this;
     filtered_earthquakes := l;
     filtered_earthquakes_log := filtered_earthquakes_log this |}.

Definition with_filtered_earthquakes_log (this : Earthquakes) (log : str)
  : Earthquakes :=
  {| usgs_url := usgs_url this;
     usgs_regions_url := usgs_regions_url this;
     filter_values := filter_values this;
     filter_type := filter_type this;
     filtered_earthquakes := filtered_earthquakes this;
     filtered_earthquakes_log := log |}.

(** The instance and what the process has printed, a line per [print]. *)
Record state := {
  self : Earthquakes;
  stdout : list str
}.

(** A method: it may change the instance and print, and ends by returning a
    value or raising. *)
Definition M (A : Type) : Type := state -> state * result A.

Definition ret {A} (a : A) : M A := fun s => (s, Ok a).

Definition bind {A B} (m : M A) (k : A -> M B) : M B :=
  fun s =>
    match m s with
    | (s', Ok a) => k a s'
    | (s', Raise e) => (s', Raise e)
    end.

Definition lift {A} (r : result A) : M A := fun s => (s, r).

Definition get_self : M Earthquakes := fun s => (s, Ok (self s)).

Definition put_self (this : Earthquakes) : M unit :=
  fun s => ({| self := this; stdout := stdout s |}, Ok tt).

(** [print(line)] *)
Definition print (line : str) : M unit :=
  fun s => ({| self := self s; stdout := stdout s ++ [line] |}, Ok tt).

Notation "'do' x <- m ; k" := (bind m (fun x => k))
  (at level 10, x name, m at level 100, k at level 200).
Notation "m ;; k" := (bind m (fun _ => k))
  (at level 100, k at level 200, right associativity).

(** A [for] loop over a list. *)
Fixpoint for_each {A} (l : list A) (body : A -> M unit) : M unit :=
  match l with
  | [] => ret tt
  | x :: l' => body x ;; for_each l' body
  end.

(** Unfolds the steps of a method. *)
Ltac unfold_monad :=
  unfold bind, ret, lift, get_self, put_self, print; simpl.

(** The same for results alone, where nothing but an exception can happen. *)
Definition rbind {A B} (r : result A) (k : A -> result B) : result B :=
  match r with
  | Ok a => k a
  | Raise e => Raise e
  end.

(** [l[i]] for [0 <= i], and [l[-1]]. *)
Definition item {A} (l : list A) (i : nat) : result A :=
  match l !! i with
  | Some x => Ok x
  | None => Raise IndexError
  end.

Definition item_last {A} (l : list A) : result A :=
  match last l with
  | Some x => Ok x
  | None => Raise IndexError
  end.

(** A list comprehension [[x for x in l if cond x]]. *)
Fixpoint comprehension {A} (cond : A -> result bool) (l : list A)
  : result (list A) :=
  match l with
  | [] => Ok []
  | x :: l' =>
      rbind (cond x) (fun keep =>
      rbind (comprehension cond l') (fun rest =>
      Ok (if keep then x :: rest else rest)))
  end.

(** [Earthquakes.__init__]: the two arguments are not used. *)
Definition __init__ {A B : Type} (filter_values : A) (filter_type : B)
  : Earthquakes :=
  {| usgs_url :=
       py "https://earthquake.usgs.gov/earthquakes/feed/v1.0/summary/all_week.geojson";
     usgs_regions_url :=
       py "https://earthquake.usgs.gov/ws/geoserve/regions.json";
     filter_values := [py "CA"; py "California"];
     filter_type := py "earthquake";
     filtered_earthquakes := [];
     filtered_earthquakes_log := [] |}.

Section Methods.

Variable world : World.

(** [json.load(urlopen(url))['features']] *)
Definition load_features (url : str) : result (list Feature) :=
  match world url with
  | Ok (FeedDoc features) => Ok features
  | Ok (RegionsDoc _) => Raise KeyError
  | Raise e => Raise e
  end.

(** [json.load(urlopen(url))['neiccatalog']['features']], each entry
    standing for its [['properties']['name']]. *)
Definition load_regions (url : str) : result (list str) :=
  match world url with
  | Ok (RegionsDoc names) => Ok names
  | Ok (FeedDoc _) => Raise KeyError
  | Raise e => Raise e
  end.

(** The condition of the comprehension of [_filter_earthquakes]; [and]
    does not evaluate its right side when the left one is false. *)
Definition text_match (this : Earthquakes) (quakes : Feature) : result bool :=
  if bool_decide (properties_type quakes = filter_type this) then
    rbind (item_last (split comma (properties_place quakes))) (fun region =>
    Ok (bool_decide (strip region ∈ filter_values this)))
  else Ok false.

Definition _filter_earthquakes : M (list Feature) :=
  do this <- get_self;
  do earthquakes <- lift (load_features (usgs_url this));
  let earthquakes := reverse earthquakes in
  do filtered <- lift (comprehension (text_match this) earthquakes);
  put_self (with_filtered_earthquakes this filtered) ;;
  ret filtered.

(** [_get_location] reads [self.usgs_regions_url] and the network only. *)
Definition _get_location (this : Earthquakes) (geometry : list number)
  : result str :=
  rbind (item geometry 0) (fun longitude =>
  rbind (item geometry 1) (fun latitude =>
  let coordinates :=
    [(py "longitude", str_number longitude);
     (py "latitude", str_number latitude);
     (py "type", py "neiccatalog")] in
  let params := UrlEncode.urlencode coordinates in
  let location_url := usgs_regions_url this ++ py "?" ++ params in
  rbind (load_regions location_url) (fun location =>
  rbind (item location 0) (fun name =>
  Ok name)))).

(** The condition under which the loop appends the entry. *)
Definition geocode_match (this : Earthquakes) (quakes : Feature)
    (location : str) : bool :=
  bool_decide (properties_type quakes = filter_type this)
  && bool_decide (location ∈ filter_values this).

Definition _filter_earthquakes_by_coordinates : M (list Feature) :=
  do this <- get_self;
  do earthquakes <- lift (load_features (usgs_url this));
  let earthquakes := reverse earthquakes in
  for_each earthquakes (fun quakes =>
    do this <- get_self;
    do location <- lift (_get_location this (geometry_coordinates quakes));
    if geocode_match this quakes location
    then put_self (with_filtered_earthquakes this
                     (filtered_earthquakes this ++ [quakes]))
    else ret tt) ;;
  do this <- get_self;
  ret (filtered_earthquakes this).

(** The line printed for an entry. *)
Definition log_line (time place magnitude : str) : str :=
  time ++ py " | " ++ place ++ py " | magnitude : " ++ magnitude.

Definition log_earthquakes : M unit :=
  _filter_earthquakes_by_coordinates ;;
  do this <- get_self;
  for_each (seq 0 (length (filtered_earthquakes this))) (fun i =>
    do this <- get_self;
    do quakes <- lift (item (filtered_earthquakes this) i);
    do time <- lift (_convert_time (properties_time quakes));
    do quakes <- lift (item (filtered_earthquakes this) i);
    let place := properties_place quakes in
    do quakes <- lift (item (filtered_earthquakes this) i);
    let magnitude := str_mag (properties_mag quakes) in
    do this <- get_self;
    put_self (with_filtered_earthquakes_log this
                (filtered_earthquakes_log this ++ log_line time place magnitude)) ;;
    print (log_line time place magnitude)).

(** The script: build the instance, log, with nothing printed before. *)
Definition main : state * result unit :=
  log_earthquakes
    {| self := __init__ [py "CA"; py "California"] (py "earthquake");
       stdout := [] |}.

End Methods.

(** ** Notions of the specification *)

(** The text after the last comma of [s]; all of [s] when it has no comma. *)
Fixpoint after_last_comma (s : str) : str :=
  match s with
  | [] => []
  | c :: s' =>
      if bool_decide (comma ∈ s') then after_last_comma s'
      else if (c =? comma)%N then s' else s
  end.

(** The text-match strategy as the specification words it: the event type
    is the configured one and the trimmed text after the last comma of the
    place is one of the region labels. *)
Definition text_accepts (this : Earthquakes) (quakes : Feature) : Prop :=
  properties_type quakes = filter_type this
  ∧ strip (after_last_comma (properties_place quakes)) ∈ filter_values this.

Global Instance text_accepts_dec this quakes : Decision (text_accepts this quakes).
Proof. unfold text_accepts. apply _. Defined.

(** A sequence in which every element stands in relation [R] to each
    later one. *)
Definition in_order {A} (R : relation A) (l : list A) : Prop :=
  ∀ (i j : nat) a b, (i < j)%nat → l !! i = Some a → l !! j = Some b → R a b.

(** A sequence of entries ordered by time: the first is the newest, or the
    first is the oldest. *)
Definition newest_first : list Feature → Prop :=
  in_order (λ a b, (properties_time b <= properties_time a)%Z).

Definition oldest_first : list Feature → Prop :=
  in_order (λ a b, (properties_time a <= properties_time b)%Z).

(** The geocode strategy on one entry: the regions service answers with a
    name, the event type is the configured one and the name is one of the
    region labels. *)
Definition geocode_accepts (world : World) (this : Earthquakes)
    (quakes : Feature) : bool :=
  match _get_location world this (geometry_coordinates quakes) with
  | Ok location => geocode_match this quakes location
  | Raise _ => false
  end.

(** [line] is the line of the output for the entry [quakes]. *)
Definition printed_as (quakes : Feature) (line : str) : Prop :=
  ∃ time, _convert_time (properties_time quakes) = Ok time
    ∧ line = time ++ py " | " ++ properties_place quakes
             ++ py " | magnitude : " ++ str_mag (properties_mag quakes).

(** The Gregorian calendar, to say what a valid date is. *)
Definition is_leap (y : Z) : bool :=
  ((y mod 4 =? 0) && negb (y mod 100 =? 0) || (y mod 400 =? 0))%Z.

Definition days_in_month (y m : Z) : Z :=
  (if m =? 2 then (if is_leap y then 29 else 28)
   else if (m =? 4) || (m =? 6) || (m =? 9) || (m =? 11) then 30
   else 31)%Z.

Definition valid_tm (dt : PyTime.tm) : Prop :=
  (1 <= PyTime.tm_mon dt <= 12
   ∧ 1 <= PyTime.tm_mday dt <= days_in_month (PyTime.tm_year dt) (PyTime.tm_mon dt)
   ∧ 0 <= PyTime.tm_hour dt < 24
   ∧ 0 <= PyTime.tm_min dt < 60
   ∧ 0 <= PyTime.tm_sec dt < 60)%Z.

(** The text [YYYY-MM-DDTHH:MM:SS+0000] of a broken-down time. *)
Definition digits4 (n : Z) : str :=
  [PyTime.digit (n / 1000); PyTime.digit (n / 100 mod 10);
   PyTime.digit (n / 10 mod 10); PyTime.digit (n mod 10)]%Z.

Definition iso_text (dt : PyTime.tm) : str :=
  digits4 (PyTime.tm_year dt) ++ py "-" ++ PyTime.pad2 (PyTime.tm_mon dt)
  ++ py "-" ++ PyTime.pad2 (PyTime.tm_mday dt)
  ++ py "T" ++ PyTime.pad2 (PyTime.tm_hour dt)
  ++ py ":" ++ PyTime.pad2 (PyTime.tm_min dt)
  ++ py ":" ++ PyTime.pad2 (PyTime.tm_sec dt) ++ py "+0000".

(** A decimal digit. *)
Definition is_digit (c : char) : bool := ((0x30 <=? c) && (c <=? 0x39))%N.

(** A character that stands for itself in a query string: an unreserved
    character, ['%'] or ['+']. *)
Definition url_safe (c : char) : bool :=
  (UrlEncode.unreserved c || (c =? 0x25) || (c =? 0x2B))%N.

(** Two instances with the same URLs, region labels and event type. *)
Definition same_configuration (a b : Earthquakes) : Prop :=
  usgs_url a = usgs_url b
  ∧ usgs_regions_url a = usgs_regions_url b
  ∧ filter_values a = filter_values b
  ∧ filter_type a = filter_type b.

(** ** The loops, read as functions

    What a loop of a method does to the instance and to the output is
    summed up by a function of the list it scans: what it appends, and the
    exception that stops it, if one does. *)

(** The entries the loop of [_filter_earthquakes_by_coordinates] appends. *)
Fixpoint geocode_scan (world : World) (this : Earthquakes) (l : list Feature)
  : list Feature * option exn :=
  match l with
  | [] => ([], None)
  | quakes :: l' =>
      match _get_location world this (geometry_coordinates quakes) with
      | Raise e => ([], Some e)
      | Ok location =>
          let '(kept, stop) := geocode_scan world this l' in
          (if geocode_match this quakes location then quakes :: kept else kept,
           stop)
      end
  end.

(** The lines the loop of [log_earthquakes] prints. *)
Fixpoint log_scan (l : list Feature) : list str * option exn :=
  match l with
  | [] => ([], None)
  | quakes :: l' =>
      match _convert_time (properties_time quakes) with
      | Raise e => ([], Some e)
      | Ok time =>
          let '(lines, stop) := log_scan l' in
          (log_line time (properties_place quakes)
             (str_mag (properties_mag quakes)) :: lines, stop)
      end
  end.

Definition outcome (stop : option exn) : result unit :=
  match stop with
  | None => Ok tt
  | Some e => Raise e
  end.

(** ** Sample feeds *)

Module Sample.

Local Open Scope Z_scope.

(** A JSON number written with a decimal point. *)
Definition dec (neg : bool) (D k : Z) : number :=
  Float (PyFloat.of_decimal neg D k).

(** A network that serves the listed pages and nothing else. *)
Fixpoint serve (pages : list (str * document)) (url : str) : result document :=
  match pages with
  | [] => Raise URLError
  | (u, d) :: rest => if bool_decide (u = url) then Ok d else serve rest url
  end.

Definition feed_url : str :=
  py "https://earthquake.usgs.gov/earthquakes/feed/v1.0/summary/all_week.geojson".

Definition greenville : Feature :=
  {| properties_type := py "earthquake";
     properties_place := py "3km NW of Greenville, California";
     properties_mag := Some (Int 1);
     properties_time := 1499978617000;
     geometry_coordinates := [dec true 12097 (-2); dec false 4016 (-2); dec false 52 (-1)] |}.

Definition tonopah : Feature :=
  {| properties_type := py "earthquake";
     properties_place := py "30km SE of Tonopah, Nevada";
     properties_mag := Some (dec false 13 (-1));
     properties_time := 1499979600000;
     geometry_coordinates := [dec true 1175 (-1); Int 38; dec false 41 (-1)] |}.

Definition ferndale : Feature :=
  {| properties_type := py "earthquake";
     properties_place := py "41km SW of Ferndale, California";
     properties_mag := Some (dec false 276 (-2));
     properties_time := 1499983793000;
     geometry_coordinates := [dec true 12463 (-2); dec false 403 (-1); dec false 20 0] |}.

Definition mammoth_blast : Feature :=
  {| properties_type := py "quarry blast";
     properties_place := py "11km E of Mammoth Lakes, California";
     properties_mag := Some (dec false 131 (-2));
     properties_time := 1499985064000;
     geometry_coordinates := [dec true 11882 (-2); dec false 3763 (-2); Int 0] |}.

(** The feed lists the newest entry first. *)
Definition feed : list Feature := [mammoth_blast; ferndale; tonopah; greenville].

Definition world : World :=
  serve
    [(feed_url, FeedDoc feed);
     (py "https://earthquake.usgs.gov/ws/geoserve/regions.json?longitude=-120.97&latitude=40.16&type=neiccatalog",
      RegionsDoc [py "California"]);
     (py "https://earthquake.usgs.gov/ws/geoserve/regions.json?longitude=-117.5&latitude=38&type=neiccatalog",
      RegionsDoc [py "Nevada"]);
     (py "https://earthquake.usgs.gov/ws/geoserve/regions.json?longitude=-124.63&latitude=40.3&type=neiccatalog",
      RegionsDoc [py "California"; py "Offshore Northern California"]);
     (py "https://earthquake.usgs.gov/ws/geoserve/regions.json?longitude=-118.82&latitude=37.63&type=neiccatalog",
      RegionsDoc [py "California"])].

(** The same network with one more page, which the program never asks for. *)
Definition world_with_more : World :=
  fun url =>
    if bool_decide (url = py "https://earthquake.usgs.gov/") then Ok (RegionsDoc [])
    else world url.

(** A new instance, nothing printed yet. *)
Definition fresh : state :=
  {| self := __init__ [py "CA"; py "California"] (py "earthquake");
     stdout := [] |}.

(** An entry whose place is a bare region name, without a comma. *)
Definition bare_place : Feature :=
  {| properties_type := py "earthquake";
     properties_place := py "California";
     properties_mag := Some (Int 2);
     properties_time := 1499978617000;
     geometry_coordinates := [Int (-120); Int 38; Int 5] |}.

(** An entry of the feed without a magnitude. *)
Definition no_magnitude : Feature :=
  {| properties_type := py "earthquake";
     properties_place := py "10km W of Anza, CA";
     properties_mag := None;
     properties_time := 1500000000000;
     geometry_coordinates := [dec true 1167 (-1); dec false 335 (-1); Int 12] |}.

Definition world_no_magnitude : World :=
  serve
    [(feed_url, FeedDoc [no_magnitude]);
     (py "https://earthquake.usgs.gov/ws/geoserve/regions.json?longitude=-116.7&latitude=33.5&type=neiccatalog",
      RegionsDoc [py "California"])].

(** An entry whose place names one region and whose coordinates lie, for
    the regions service, in another. *)
Definition border : Feature :=
  {| properties_type := py "earthquake";
     properties_place := py "20km N of Truckee, CA";
     properties_mag := Some (dec false 21 (-1));
     properties_time := 1500000000000;
     geometry_coordinates := [dec true 1201 (-1); dec false 395 (-1); Int 7] |}.

Definition world_border : World :=
  serve
    [(feed_url, FeedDoc [border]);
     (py "https://earthquake.usgs.gov/ws/geoserve/regions.json?longitude=-120.1&latitude=39.5&type=neiccatalog",
      RegionsDoc [py "Nevada"])].

Definition world_bare_place : World :=
  serve [(feed_url, FeedDoc [bare_place])].

(** An entry of an ocean ridge, whose place has no comma either. *)
Definition ridge : Feature :=
  {| properties_type := py "earthquake";
     properties_place := py "Pacific-Antarctic Ridge";
     properties_mag := Some (dec false 51 (-1));
     properties_time := 1499978617000;
     geometry_coordinates := [Int (-130); Int (-55); Int 10] |}.


(** A network whose regions service has no page for the quarry blast. *)
Definition world_missing_page : World :=
  serve
    [(feed_url, FeedDoc [mammoth_blast; ferndale; greenville]);
     (py "https://earthquake.usgs.gov/ws/geoserve/regions.json?longitude=-120.97&latitude=40.16&type=neiccatalog",
      RegionsDoc [py "California"]);
     (py "https://earthquake.usgs.gov/ws/geoserve/regions.json?longitude=-124.63&latitude=40.3&type=neiccatalog",
      RegionsDoc [py "California"])].

(** An entry whose timestamp lies after the year 9999. *)
Definition far_future : Feature :=
  {| properties_type := py "earthquake";
     properties_place := py "100km W of Eureka, California";
     properties_mag := Some (Int 3);
     properties_time := 1000000000000000;
     geometry_coordinates := [Int (-125); Int 40; Int 10] |}.

Definition world_far_future : World :=
  serve
    [(feed_url, FeedDoc [far_future; greenville]);
     (py "https://earthquake.usgs.gov/ws/geoserve/regions.json?longitude=-120.97&latitude=40.16&type=neiccatalog",
      RegionsDoc [py "California"]);
     (py "https://earthquake.usgs.gov/ws/geoserve/regions.json?longitude=-125&latitude=40&type=neiccatalog",
      RegionsDoc [py "California"])].

End Sample.

(** ** Properties of the string operations *)

Section SplitFacts.

Lemma split_no_sep sep s : sep ∉ s → split sep s = [s].
Proof.
  induction s as [|c s IH]; intros Hn; [done|].
  apply not_elem_of_cons in Hn as [Hc Hs]. simpl.
  destruct (N.eqb_spec c sep); [congruence|]. by rewrite IH.
Qed.

Lemma split_with_sep sep s :
  sep ∈ s → ∃ p q r, split sep s = p :: q :: r.
Proof.
  induction s as [|c s IH]; intros Hin; [by apply elem_of_nil in Hin|].
  simpl. destruct (N.eqb_spec c sep) as [->|Hne].
  - destruct (decide (sep ∈ s)) as [Hs|Hs].
    + destruct (IH Hs) as (p & q & r & ->). eauto.
    + rewrite split_no_sep by done. eauto.
  - apply elem_of_cons in Hin as [?|Hs]; [congruence|].
    destruct (IH Hs) as (p & q & r & ->). eauto.
Qed.

Lemma after_last_comma_no_comma s : comma ∉ s → after_last_comma s = s.
Proof.
  destruct s as [|c s]; [done|]. intros Hn.
  apply not_elem_of_cons in Hn as [Hc Hs]. simpl.
  rewrite bool_decide_eq_false_2 by done.
  destruct (N.eqb_spec c comma); [congruence|done].
Qed.

Lemma after_last_comma_app pre suf :
  comma ∉ suf → after_last_comma (pre ++ comma :: suf) = suf.
Proof.
  intros Hn. induction pre as [|c pre IH]; simpl.
  - by rewrite bool_decide_eq_false_2.
  - rewrite bool_decide_eq_true_2; [done|].
    apply elem_of_app. right. apply elem_of_cons. by left.
Qed.

Lemma last_split s : last (split comma s) = Some (after_last_comma s).
Proof.
  induction s as [|c s IH]; [done|]. simpl.
  destruct (decide (comma ∈ s)) as [Hs|Hs].
  - rewrite bool_decide_eq_true_2 by done.
    destruct (split_with_sep _ _ Hs) as (p & q & r & Hsp).
    rewrite Hsp in IH |- *. by destruct (c =? comma)%N.
  - rewrite bool_decide_eq_false_2 by done.
    rewrite split_no_sep by done.
    by destruct (c =? comma)%N.
Qed.

End SplitFacts.

(** ** Rounding to binary64

    What the proofs below need of [round_ratio]: in the normal range the
    result is a 53-bit mantissa at the exponent of the quotient, and it
    lies between the integers just below and just above the scaled
    quotient. *)

Section FloatFacts.

Import PyFloat PyTime.
Local Open Scope Z_scope.

Lemma rne_div_le n d K : 0 < d -> n <= K * d -> rne_div n d <= K.
Proof.
  intros Hd Hn. unfold rne_div.
  pose proof (Z.div_mod n d ltac:(lia)) as Hdm.
  pose proof (Z.mod_pos_bound n d Hd) as Hr.
  assert (n / d <= K) by nia.
  destruct (Z.compare_spec (2 * (n mod d)) d); [|lia|nia].
  destruct (Z.even (n / d)); [lia|nia].
Qed.

Lemma rne_div_ge n d K : 0 < d -> K * d <= n -> K <= rne_div n d.
Proof.
  intros Hd Hn. unfold rne_div.
  pose proof (Z.div_mod n d ltac:(lia)) as Hdm.
  pose proof (Z.mod_pos_bound n d Hd) as Hr.
  assert (K <= n / d) by nia.
  destruct (Z.compare_spec (2 * (n mod d)) d); [|lia|lia].
  destruct (Z.even (n / d)); lia.
Qed.

Lemma ilog2_ratio_spec n d :
  0 < n -> 0 < d ->
  let L := ilog2_ratio n d in
  if 0 <=? L then d * 2 ^ L <= n < d * 2 ^ (L + 1)
  else d <= n * 2 ^ (- L) < 2 * d.
Proof.
  intros Hn Hd. unfold ilog2_ratio.
  destruct (Z.log2_spec n Hn) as [Ha1 Ha2].
  destruct (Z.log2_spec d Hd) as [Hb1 Hb2].
  pose proof (Z.log2_nonneg n) as Ha0. pose proof (Z.log2_nonneg d) as Hb0.
  set (a := Z.log2 n) in *. set (b := Z.log2 d) in *.
  rewrite <- !Z.add_1_r in *.
  destruct (Z.leb_spec 0 (a - b)) as [Hl|Hl].
  - assert (Hab : 2 ^ a = 2 ^ b * 2 ^ (a - b)) by (rewrite <- Z.pow_add_r by lia; f_equal; lia).
    assert (0 < 2 ^ b) by (apply Z.pow_pos_nonneg; lia).
    assert (0 < 2 ^ (a - b)) by (apply Z.pow_pos_nonneg; lia).
    rewrite !Z.pow_add_r in * by lia. change (2 ^ 1) with 2 in *.
    destruct (Z.leb_spec (d * 2 ^ (a - b)) n) as [Ht|Ht]; cbv zeta.
    + destruct (Z.leb_spec 0 (a - b)); [|lia]. rewrite Z.pow_add_r by lia. nia.
    + destruct (Z.leb_spec 0 (a - b - 1)) as [Hl1|Hl1].
      * assert (2 ^ (a - b) = 2 ^ (a - b - 1) * 2) as Hp.
        { rewrite <- (Z.pow_add_r 2 _ 1) by lia. f_equal. lia. }
        replace (a - b - 1 + 1) with (a - b) by lia. nia.
      * assert (a - b = 0) as Hz by lia. rewrite Hz in *.
        replace (- (0 - 1)) with 1 by lia. change (2 ^ 0) with 1 in *. change (2 ^ 1) with 2. nia.
  - assert (Hab : 2 ^ b = 2 ^ a * 2 ^ (b - a)) by (rewrite <- Z.pow_add_r by lia; f_equal; lia).
    assert (0 < 2 ^ a) by (apply Z.pow_pos_nonneg; lia).
    assert (0 < 2 ^ (b - a)) by (apply Z.pow_pos_nonneg; lia).
    rewrite !Z.pow_add_r in * by lia. change (2 ^ 1) with 2 in *.
    replace (- (a - b)) with (b - a) by lia.
    destruct (Z.leb_spec d (n * 2 ^ (b - a))) as [Ht|Ht]; cbv zeta.
    + destruct (Z.leb_spec 0 (a - b)); [lia|]. replace (- (a - b)) with (b - a) by lia. nia.
    + destruct (Z.leb_spec 0 (a - b - 1)); [lia|].
      replace (- (a - b - 1)) with (b - a + 1) by lia.
      rewrite Z.pow_add_r by lia. change (2 ^ 1) with 2. nia.
Qed.

Lemma round_ratio_grid neg n d :
  0 < n -> 0 < d -> n < d * 2 ^ 52 -> d <= n * 2 ^ 1022 ->
  exists m e,
    round_ratio neg n d = Fin neg m e
    /\ -1074 <= e <= 0
    /\ 2 ^ 52 <= m < 2 ^ 53
    /\ (forall K, n * 2 ^ (- e) <= K * d -> m <= K)
    /\ (forall K, K * d <= n * 2 ^ (- e) -> K <= m).
Proof.
  intros Hn Hd Hup Hlow. unfold round_ratio.
  destruct (Z.eqb_spec n 0); [lia|].
  pose proof (ilog2_ratio_spec n d Hn Hd) as HL. cbv zeta in HL.
  set (L := ilog2_ratio n d) in *.
  assert (HLup : L <= 51).
  { destruct (Z.leb_spec 0 L); [|lia].
    destruct (Z.le_gt_cases L 51); [done|].
    assert (2 ^ 52 <= 2 ^ L) by (apply Z.pow_le_mono_r; lia). nia. }
  assert (HLlow : -1022 <= L).
  { destruct (Z.leb_spec 0 L); [lia|].
    destruct (Z.le_gt_cases (-1022) L); [done|].
    assert (2 ^ 1023 <= 2 ^ (- L)) by (apply Z.pow_le_mono_r; lia).
    change (2 ^ 1023) with (2 ^ 1022 * 2) in *. nia. }
  rewrite Z.max_l by lia.
  set (e := L - 52). set (P := 2 ^ (- e)).
  assert (HP : 0 < P) by (apply Z.pow_pos_nonneg; lia).
  assert (Hnorm : d * 2 ^ 52 <= n * P < d * 2 ^ 53).
  { subst P e. destruct (Z.leb_spec 0 L).
    - replace (- (L - 52)) with (52 - L) by lia.
      assert (2 ^ 52 = 2 ^ L * 2 ^ (52 - L)) as H52
        by (rewrite <- Z.pow_add_r by lia; f_equal; lia).
      assert (0 < 2 ^ (52 - L)) by (apply Z.pow_pos_nonneg; lia).
      rewrite Z.pow_add_r in HL by lia. change (2 ^ 1) with 2 in HL.
      change (2 ^ 53) with (2 ^ 52 * 2). rewrite H52. nia.
    - replace (- (L - 52)) with (- L + 52) by lia.
      rewrite Z.pow_add_r by lia.
      change (2 ^ 53) with (2 ^ 52 * 2). nia. }
  unfold scaled_rne. destruct (Z.leb_spec 0 e); [lia|]. fold P.
  set (m0 := rne_div (n * P) d).
  assert (Hm0 : 2 ^ 52 <= m0 <= 2 ^ 53).
  { split; [apply rne_div_ge|apply rne_div_le]; lia. }
  assert (Hle : forall K, n * P <= K * d -> m0 <= K) by (intros; by apply rne_div_le).
  assert (Hge : forall K, K * d <= n * P -> K <= m0) by (intros; by apply rne_div_ge).
  destruct (Z.eqb_spec m0 (2 ^ 53)) as [Hc|Hc].
  - destruct (Z.ltb_spec 971 (e + 1)); [lia|].
    exists (2 ^ 52), (e + 1). split; [done|]. split; [lia|]. split; [lia|].
    assert (P = 2 * 2 ^ (- (e + 1))) as HP2.
    { subst P. replace (- e) with (1 + - (e + 1)) by lia.
      by rewrite Z.pow_add_r by lia. }
    split; intros K HK.
    + assert (m0 <= 2 * K) by (apply Hle; nia). lia.
    + assert (2 * K <= m0) by (apply Hge; nia). lia.
  - destruct (Z.ltb_spec 971 e); [lia|].
    exists m0, e. split; [done|]. split; [lia|]. split; [lia|]. split; done.
Qed.

Lemma pow2_split a b : 0 <= b <= a -> 2 ^ a = 2 ^ b * 2 ^ (a - b).
Proof. intros. rewrite <- Z.pow_add_r by lia. f_equal. lia. Qed.

(** A bound on a power of two bounds its exponent. *)
Lemma pow2_exp_ge x a : 0 <= x -> 2 ^ a <= 2 ^ x -> a <= x.
Proof.
  intros Hx H. destruct (Z.le_gt_cases a x); [done|].
  assert (2 ^ x < 2 ^ a) by (apply Z.pow_lt_mono_r; lia). lia.
Qed.

Lemma round_div_1000 neg a :
  0 < a < 4000000000000000 ->
  exists m e,
    round_ratio neg a 1000 = Fin neg m e
    /\ -63 <= e <= -11
    /\ (a / 1000) * 2 ^ (- e) <= m
    /\ m <= (a / 1000 + 1) * 2 ^ (- e) - 2 ^ (- e - 11)
    /\ (a mod 1000 = 0 -> m = (a / 1000) * 2 ^ (- e))
    /\ (0 < a mod 1000 -> (a / 1000) * 2 ^ (- e) + 2 ^ (- e - 11) <= m).
Proof.
  intros Ha.
  assert (H1022 : 1000 <= 2 ^ 1022).
  { change 1000 with (1000 * 1). change (2 ^ 1022) with (2 ^ 10 * 2 ^ 1012).
    apply Z.mul_le_mono_nonneg; [lia|by vm_compute|lia|].
    pose proof (Z.pow_pos_nonneg 2 1012). lia. }
  destruct (round_ratio_grid neg a 1000) as (m & e & -> & He & Hm & Hle & Hge);
    [lia|lia|change (2 ^ 52) with 4503599627370496; lia|nia|].
  exists m, e. split; [done|].
  set (P := 2 ^ (- e)) in *.
  assert (HP : 0 < P) by (apply Z.pow_pos_nonneg; lia).
  change (2 ^ 52) with 4503599627370496 in *.
  change (2 ^ 53) with 9007199254740992 in *.
  assert (He11 : 11 <= - e).
  { destruct (Z.le_gt_cases 11 (- e)); [done|].
    assert (P <= 2 ^ 10) by (apply Z.pow_le_mono_r; lia).
    change (2 ^ 10) with 1024 in *.
    assert (m <= 4503599627370495) by (apply Hle; nia). lia. }
  assert (He63 : - e <= 63).
  { destruct (Z.le_gt_cases (- e) 63); [done|].
    assert (2 ^ 64 <= P) by (apply Z.pow_le_mono_r; lia).
    change (2 ^ 64) with 18446744073709551616 in *.
    assert (9007199254740992 <= m) by (apply Hge; nia). lia. }
  split; [lia|].
  assert (HP11 : P = 2048 * 2 ^ (- e - 11)).
  { subst P. rewrite (pow2_split (- e) 11) by lia. done. }
  set (P11 := 2 ^ (- e - 11)) in *.
  assert (0 < P11) by (apply Z.pow_pos_nonneg; lia).
  pose proof (Z.div_mod a 1000 ltac:(lia)) as Hdm.
  pose proof (Z.mod_pos_bound a 1000 ltac:(lia)) as Hj.
  set (k := a / 1000) in *. set (j := a mod 1000) in *.
  assert (Hlo : k * P <= m) by (apply Hge; nia).
  repeat split; [done| | |].
  - apply Hle. nia.
  - intros Hj0. assert (m <= k * P) by (apply Hle; nia). lia.
  - intros Hj0. apply Hge. nia.
Qed.

Lemma object_to_timeval_parts neg k m e :
  0 <= k < 2 ^ 62 -> -63 <= e <= -11 ->
  k * 2 ^ (- e) <= m ->
  m <= (k + 1) * 2 ^ (- e) - 2 ^ (- e - 11) ->
  m = k * 2 ^ (- e) \/ k * 2 ^ (- e) + 2 ^ (- e - 11) <= m ->
  exists us,
    object_to_timeval (Fin neg m e)
    = Ok (if neg then (if m =? k * 2 ^ (- e) then - k else - k - 1) else k, us).
Proof.
  intros Hk He Hlo Hhi Hfrac. unfold object_to_timeval, modf.
  destruct (Z.leb_spec 0 e); [lia|].
  assert (Hden : den e = 2 ^ (- e)) by (unfold den; by rewrite Z.max_l by lia).
  rewrite Hden.
  set (P := 2 ^ (- e)) in *. set (P11 := 2 ^ (- e - 11)) in *.
  assert (HP : 0 < P) by (apply Z.pow_pos_nonneg; lia).
  assert (HP11 : 0 < P11) by (apply Z.pow_pos_nonneg; lia).
  assert (HPP : P = 2048 * P11) by (subst P P11; by rewrite (pow2_split (- e) 11) by lia).
  assert (HP63 : P <= 2 ^ 63) by (apply Z.pow_le_mono_r; lia).
  assert (Hdiv : m / P = k) by (symmetry; apply (Z.div_unique m P k (m - k * P)); lia).
  assert (Hmod : m mod P = m - k * P) by (symmetry; apply (Z.mod_unique m P k (m - k * P)); lia).
  rewrite Hdiv, Hmod. set (fr := m - k * P) in *.
  assert (Hfr : 0 <= fr <= P - P11) by lia.
  change (of_Z 1000000) with (Fin false 8589934592000000 (-33)).
  change (2 ^ 62) with 4611686018427387904 in *.
  assert (Hrange : forall x, - k - 1 <= x <= k ->
            (- 2 ^ 63 <=? x) && (x <=? 2 ^ 63) = true).
  { intros x Hx. change (2 ^ 63) with 9223372036854775808 in *.
    apply andb_true_intro. split; apply Z.leb_le; lia. }
  destruct (Z.eq_dec fr 0) as [Hfr0|Hfr0].
  { rewrite Hfr0. exists 0.
    destruct (Z.eqb_spec m (k * P)); [|lia].
    change (round_ratio neg 0 P) with (Fin neg 0 (-1074)).
    assert (round_half_even (mul (Fin neg 0 (-1074)) (Fin false 8589934592000000 (-33))) = 0)
      as -> by (by destruct neg).
    simpl. destruct neg; by rewrite Hrange by lia. }
  assert (HfrP : P11 <= fr) by lia.
  assert (Hmk : m <> k * P) by lia.
  assert (H1022 : 2 ^ 63 <= 2 ^ 1022) by (apply Z.pow_le_mono_r; lia).
  assert (H1022' : 0 < 2 ^ 1022) by (apply Z.pow_pos_nonneg; lia).
  destruct (round_ratio_grid neg fr P) as (mf & ef & -> & Hef & Hmf & Hlef & Hgef);
    [lia|lia| |nia|].
  { change (2 ^ 52) with 4503599627370496. nia. }
  set (Pf := 2 ^ (- ef)) in *.
  assert (HPf : 0 < Pf) by (apply Z.pow_pos_nonneg; lia).
  assert (Hmf1 : mf <= Pf) by (apply Hlef; nia).
  assert (Hef52 : 52 <= - ef) by (apply pow2_exp_ge; [lia|fold Pf; lia]).
  assert (HPf11 : Pf = 2048 * 2 ^ (- ef - 11))
    by (subst Pf; by rewrite (pow2_split (- ef) 11) by lia).
  set (Pf11 := 2 ^ (- ef - 11)) in *.
  assert (0 < Pf11) by (apply Z.pow_pos_nonneg; lia).
  assert (Hmf2 : mf <= 2047 * Pf11) by (apply Hlef; nia).
  assert (Hmf3 : Pf11 <= mf) by (apply Hgef; nia).
  unfold mul. rewrite xorb_false_r.
  unfold num. rewrite Z.max_r by lia. rewrite Z.mul_1_r.
  assert (Hden2 : den (ef + -33) = Pf * 2 ^ 33).
  { unfold den. rewrite Z.max_l by lia.
    replace (- (ef + -33)) with (- ef + 33) by lia.
    by rewrite Z.pow_add_r by lia. }
  rewrite Hden2.
  assert (HPf1074 : Pf <= 2 ^ 1074) by (apply Z.pow_le_mono_r; lia).
  change (2 ^ 52) with 4503599627370496 in *.
  change (2 ^ 53) with 9007199254740992 in *.
  change (2 ^ 33) with 8589934592 in *.
  destruct (round_ratio_grid neg (mf * 8589934592000000) (Pf * 8589934592))
    as (mp & ep & -> & Hep & Hmp & Hlep & Hgep); [nia|nia| | |].
  { change (2 ^ 52) with 4503599627370496. nia. }
  { change (2 ^ 1074) with (2 ^ 52 * 2 ^ 1022) in HPf1074.
    change (2 ^ 52) with 4503599627370496 in *. nia. }
  set (Pp := 2 ^ (- ep)) in *.
  assert (HPp : 0 < Pp) by (apply Z.pow_pos_nonneg; lia).
  assert (Hmp1 : mp <= 999512 * Pp) by (apply Hlep; nia).
  assert (Hmp2 : 488 * Pp <= mp) by (apply Hgep; nia).
  unfold round_half_even, scaled_rne.
  destruct (Z.leb_spec 0 (- ep)); [|lia].
  rewrite Z.mul_1_l. fold Pp.
  set (us := rne_div mp Pp).
  assert (Hus : 488 <= us <= 999512).
  { split; [apply rne_div_ge; lia|apply rne_div_le; lia]. }
  destruct (Z.eqb_spec m (k * P)); [lia|].
  destruct neg.
  - exists (- us + 1000000).
    destruct (Z.leb_spec 1000000 (- us)); [lia|].
    destruct (Z.ltb_spec (- us) 0); [|lia].
    by rewrite Hrange by lia.
  - exists us.
    destruct (Z.leb_spec 1000000 us); [lia|].
    destruct (Z.ltb_spec us 0); [lia|].
    by rewrite Hrange by lia.
Qed.

(** The digits [repr] finds read back as the value they were found for. *)
Lemma float_eqb_eq x neg m e : float_eqb x (Fin neg m e) = true -> x = Fin neg m e.
Proof.
  destruct x as [|s|s m' e']; simpl; try discriminate.
  rewrite !andb_true_iff, !Z.eqb_eq. intros [[Hs ->] ->].
  by apply Bool.eqb_prop in Hs as ->.
Qed.

Lemma candidate_reads_back m e n c p :
  candidate m e n = Some (c, p) -> of_decimal false c p = Fin false m e.
Proof.
  unfold candidate.
  set (N := num m e). set (D := den e).
  set (q := ilog10_ratio N D - (n - 1)).
  set (nu := if 0 <=? q then N else N * 10 ^ (- q)).
  set (de := if 0 <=? q then D * 10 ^ q else D).
  destruct (float_eqb (of_decimal false (nu / de) q) (Fin false m e)) eqn:Hlo;
    destruct (float_eqb (of_decimal false (nu / de + 1) q) (Fin false m e)) eqn:Hhi;
    simpl; try discriminate.
  - destruct (2 * (nu mod de) ?= de); [destruct (Z.even (nu / de))| |];
      intros [= <- <-]; by apply float_eqb_eq.
  - intros [= <- <-]. by apply float_eqb_eq.
  - intros [= <- <-]. by apply float_eqb_eq.
Qed.

Lemma shortest_from_reads_back fuel n m e c p :
  shortest_from fuel n m e = Some (c, p) -> of_decimal false c p = Fin false m e.
Proof.
  revert n. induction fuel as [|fuel IH]; intros n; [discriminate|].
  simpl. destruct (candidate m e n) as [[c' p']|] eqn:Hc.
  - intros [= <- <-]. by eapply candidate_reads_back.
  - apply IH.
Qed.

End FloatFacts.

(** ** The calendar *)

Section CalendarFacts.

Import PyTime.
Local Open Scope Z_scope.

Lemma civil_round_trip z :
  let '(y, m, d) := civil_from_days z in
  days_from_civil y m d = z /\ 1 <= m <= 12 /\ 1 <= d <= 31.
Proof.
  unfold civil_from_days, days_from_civil.
  set (z' := z + 719468).
  set (era := z' / 146097).
  set (doe := z' mod 146097).
  set (yoe := (doe - doe / 1460 + doe / 36524 - doe / 146096) / 365).
  set (doy := doe - (365 * yoe + yoe / 4 - yoe / 100)).
  set (mp := (5 * doy + 2) / 153).
  set (d := doy - (153 * mp + 2) / 5 + 1).
  set (m := if mp <? 10 then mp + 3 else mp - 9).
  assert (Hdoe : 0 <= doe < 146097) by (subst doe; apply Z.mod_pos_bound; lia).
  assert (Hz : z' = era * 146097 + doe) by (subst era doe; Z.div_mod_to_equations; lia).
  assert (Hyoe : 0 <= yoe < 400 /\ 0 <= doy < 366) by (subst doy yoe; Z.div_mod_to_equations; lia).
  assert (Hmp : 0 <= mp <= 11 /\ 1 <= d <= 31) by (subst d mp; Z.div_mod_to_equations; lia).
  assert (Hm : 1 <= m <= 12 /\ (if 2 <? m then m - 3 else m + 9) = mp
               /\ ((if m <=? 2 then 1 else 0) = if mp <? 10 then 0 else 1)).
  { subst m. destruct (Z.ltb_spec mp 10).
    - destruct (Z.ltb_spec 2 (mp + 3)); destruct (Z.leb_spec (mp + 3) 2); lia.
    - destruct (Z.ltb_spec 2 (mp - 9)); destruct (Z.leb_spec (mp - 9) 2); lia. }
  destruct Hm as (Hm1 & -> & Hm3).
  set (c := if m <=? 2 then 1 else 0) in *.
  replace (yoe + era * 400 + c - c) with (yoe + era * 400) by lia.
  assert (He : (yoe + era * 400) / 400 = era /\ (yoe + era * 400) mod 400 = yoe)
    by (Z.div_mod_to_equations; lia).
  destruct He as [-> ->].
  split; [|lia]. subst d doy z'. lia.
Qed.

Lemma civil_from_days_valid z :
  let '(y, m, d) := civil_from_days z in
  1 <= m <= 12 /\ 1 <= d <= days_in_month y m.
Proof.
  unfold civil_from_days.
  set (z' := z + 719468).
  set (era := z' / 146097).
  set (doe := z' mod 146097).
  set (yoe := (doe - doe / 1460 + doe / 36524 - doe / 146096) / 365).
  set (doy := doe - (365 * yoe + yoe / 4 - yoe / 100)).
  set (mp := (5 * doy + 2) / 153).
  set (d := doy - (153 * mp + 2) / 5 + 1).
  assert (Hdoe : 0 <= doe < 146097) by (subst doe; apply Z.mod_pos_bound; lia).
  assert (Hyoe : 0 <= yoe < 400 /\ 0 <= doy < 366
                 /\ (doy = 365 -> (yoe + 1) mod 4 = 0
                     /\ ((yoe + 1) mod 100 <> 0 \/ yoe = 399)))
    by (subst doy yoe; Z.div_mod_to_equations; lia).
  destruct Hyoe as (Hyoe & Hdoy & Hleap).
  assert (Hmp : 0 <= mp <= 11) by (subst mp; Z.div_mod_to_equations; lia).
  unfold days_in_month, is_leap.
  assert (Hcases : mp = 0 \/ mp = 1 \/ mp = 2 \/ mp = 3 \/ mp = 4 \/ mp = 5 \/ mp = 6
                   \/ mp = 7 \/ mp = 8 \/ mp = 9 \/ mp = 10 \/ mp = 11) by lia.
  assert (Hd : 1 <= d /\ (mp = 0 -> d <= 31) /\ (mp = 1 -> d <= 30) /\ (mp = 2 -> d <= 31)
               /\ (mp = 3 -> d <= 30) /\ (mp = 4 -> d <= 31) /\ (mp = 5 -> d <= 31)
               /\ (mp = 6 -> d <= 30) /\ (mp = 7 -> d <= 31) /\ (mp = 8 -> d <= 30)
               /\ (mp = 9 -> d <= 31) /\ (mp = 10 -> d <= 31)
               /\ (mp = 11 -> d <= 29 /\ (d = 29 -> doy = 365)))
    by (subst d mp; Z.div_mod_to_equations; lia).
  clearbody d mp doy.
  destruct Hcases as [->|[->|[->|[->|[->|[->|[->|[->|[->|[->|[->| ->]]]]]]]]]]];
    simpl; try lia.
  (* February *)
  destruct Hd as (Hd1 & _ & _ & _ & _ & _ & _ & _ & _ & _ & _ & _ & Hfeb).
  destruct (Hfeb eq_refl) as [Hd29 Hd365].
  split; [lia|]. split; [lia|].
  set (y := yoe + era * 400 + 1).
  assert (Hy4 : y mod 4 = (yoe + 1) mod 4) by (subst y; Z.div_mod_to_equations; lia).
  assert (Hy100 : y mod 100 = (yoe + 1) mod 100) by (subst y; Z.div_mod_to_equations; lia).
  assert (Hy400 : y mod 400 = (yoe + 1) mod 400) by (subst y; Z.div_mod_to_equations; lia).
  rewrite Hy4, Hy100, Hy400.
  destruct (Z.eq_dec d 29) as [->|]; [|destruct (_ || _); lia].
  destruct (Hleap (Hd365 eq_refl)) as [H4 H100]. rewrite H4. simpl.
  destruct H100 as [H100| ->]; [|done].
  destruct (Z.eqb_spec ((yoe + 1) mod 100) 0); [done|]. done.
Qed.

Lemma civil_from_days_year z :
  -354285 <= z < 2932897 ->
  let '(y, m, d) := civil_from_days z in 1000 <= y <= 9999.
Proof.
  intros Hz. unfold civil_from_days.
  set (z' := z + 719468).
  set (era := z' / 146097).
  set (doe := z' mod 146097).
  set (yoe := (doe - doe / 1460 + doe / 36524 - doe / 146096) / 365).
  set (doy := doe - (365 * yoe + yoe / 4 - yoe / 100)).
  set (mp := (5 * doy + 2) / 153).
  assert (Hera : 2 <= era <= 24 /\ z' = era * 146097 + doe /\ 0 <= doe < 146097)
    by (subst era doe z'; Z.div_mod_to_equations; lia).
  destruct Hera as (Hera & Hzd & Hdoe).
  assert (Hyoe : 0 <= yoe < 400 /\ 0 <= doy < 366
                 /\ (72989 <= doe -> 199 <= yoe /\ (yoe = 199 -> 306 <= doy))
                 /\ (doe <= 146036 -> yoe = 399 -> doy <= 305))
    by (subst doy yoe; Z.div_mod_to_equations; lia).
  destruct Hyoe as (Hyoe & Hdoy & Hlow & Hhigh).
  assert (Hmp : 0 <= mp <= 11 /\ (306 <= doy -> 10 <= mp) /\ (doy <= 305 -> mp <= 9))
    by (subst mp; Z.div_mod_to_equations; lia).
  destruct Hmp as (Hmp & Hmplow & Hmphigh).
  clearbody mp doy yoe.
  destruct (Z.ltb_spec mp 10).
  - destruct (Z.leb_spec (mp + 3) 2); lia.
  - destruct (Z.leb_spec (mp - 9) 2); lia.
Qed.

End CalendarFacts.

Section ConvertTimeFacts.

Import PyFloat PyTime.
Local Open Scope Z_scope.

Lemma timegm_gmtime sec : timegm (gmtime sec) = sec.
Proof.
  unfold timegm, gmtime.
  pose proof (civil_round_trip (sec / 86400)) as Hrt.
  destruct (civil_from_days (sec / 86400)) as [[y m] d].
  destruct Hrt as [Hrt _]. simpl. rewrite Hrt.
  Z.div_mod_to_equations. lia.
Qed.

Lemma gmtime_valid sec : valid_tm (gmtime sec).
Proof.
  unfold valid_tm, gmtime.
  pose proof (civil_from_days_valid (sec / 86400)) as Hv.
  destruct (civil_from_days (sec / 86400)) as [[y m] d]. simpl.
  destruct Hv as [Hm Hd]. split; [done|]. split; [done|].
  Z.div_mod_to_equations. lia.
Qed.

Lemma gmtime_year sec :
  -30610224000 <= sec < 253402300800 → 1000 <= tm_year (gmtime sec) <= 9999.
Proof.
  intros Hs. unfold gmtime.
  pose proof (civil_from_days_year (sec / 86400)) as Hy.
  destruct (civil_from_days (sec / 86400)) as [[y m] d]. simpl.
  apply Hy. Z.div_mod_to_equations. lia.
Qed.

Lemma str_int_digits4 y : 1000 <= y <= 9999 → str_int y = digits4 y.
Proof.
  intros Hy.
  assert (Forall (λ y, str_int y = digits4 y) (seqZ 1000 9000)) as Hall.
  { apply (bool_decide_unpack _). by vm_compute. }
  rewrite Forall_forall in Hall. apply Hall, elem_of_seqZ. lia.
Qed.

Lemma strftime_iso_text dt :
  1000 <= tm_year dt <= 9999 → strftime_iso dt = iso_text dt.
Proof.
  intros Hy. unfold strftime_iso, iso_text. by rewrite str_int_digits4.
Qed.

Lemma object_to_timeval_of_ms ms :
  -4000000000000000 < ms < 4000000000000000 →
  ∃ t us, true_div ms 1000 = Ok t
          ∧ object_to_timeval t = Ok (ms / 1000, us).
Proof.
  intros Hms. destruct (Z.eq_dec ms 0) as [->|Hne]; [by do 2 eexists|].
  unfold true_div. change (1000 =? 0) with false. cbv iota.
  change (1000 <? 0) with false. rewrite xorb_false_r.
  change (Z.abs 1000) with 1000.
  destruct (round_div_1000 (ms <? 0) (Z.abs ms))
    as (m & e & -> & He & Hlo & Hhi & Hzero & Hpos); [lia|].
  pose proof (Z.mod_pos_bound (Z.abs ms) 1000 ltac:(lia)) as Hj.
  destruct (object_to_timeval_parts (ms <? 0) (Z.abs ms / 1000) m e)
    as (us & Hus); [|done|done|done| |].
  { change (2 ^ 62) with 4611686018427387904.
    Z.div_mod_to_equations. lia. }
  { destruct (Z.eq_dec (Z.abs ms mod 1000) 0); [left; auto|right; apply Hpos; lia]. }
  exists (Fin (ms <? 0) m e), us. split; [done|]. rewrite Hus. do 2 f_equal.
  destruct (Z.ltb_spec ms 0).
  - assert (0 < 2 ^ (- e - 11)) by (apply Z.pow_pos_nonneg; lia).
    destruct (Z.eqb_spec m (Z.abs ms / 1000 * 2 ^ (- e))) as [Hm|Hm].
    + assert (Z.abs ms mod 1000 = 0) by lia.
      Z.div_mod_to_equations. lia.
    + assert (Z.abs ms mod 1000 <> 0) by auto.
      Z.div_mod_to_equations. lia.
  - by rewrite Z.abs_eq by lia.
Qed.

Lemma fromtimestamp_of_ms ms :
  -30610224000000 <= ms < 253402300800000 →
  ∃ t, true_div ms 1000 = Ok t
       ∧ fromtimestamp_utc t = Ok (gmtime (ms / 1000)).
Proof.
  intros Hms.
  destruct (object_to_timeval_of_ms ms) as (t & us & Ht & Htv); [lia|].
  exists t. split; [done|]. unfold fromtimestamp_utc. rewrite Htv.
  pose proof (gmtime_year (ms / 1000)) as Hy.
  assert (1000 <= tm_year (gmtime (ms / 1000)) <= 9999) as Hyear
    by (apply Hy; Z.div_mod_to_equations; lia).
  set (y := tm_year (gmtime (ms / 1000))) in *.
  assert ((y - 1900 <? - 2 ^ 31) || (2 ^ 31 <=? y - 1900) = false) as ->.
  { apply orb_false_intro; [apply Z.ltb_ge|apply Z.leb_gt];
      change (2 ^ 31) with 2147483648; lia. }
  assert ((y <? 1) || (9999 <? y) = false) as ->; [|done].
  apply orb_false_intro; apply Z.ltb_ge; lia.
Qed.

End ConvertTimeFacts.

(** ** Ordered sequences *)

Section InOrder.

Context {A : Type} (R : relation A).

Lemma in_order_nil : in_order R [].
Proof. intros i j a b _ Hi. by rewrite lookup_nil in Hi. Qed.

Lemma in_order_cons x l :
  in_order R (x :: l) ↔ Forall (R x) l ∧ in_order R l.
Proof.
  split.
  - intros H. split.
    + apply Forall_lookup. intros j b Hj.
      apply (H 0%nat (S j) x b); [lia|done|done].
    + intros i j a b Hij Hi Hj. apply (H (S i) (S j) a b); [lia|done|done].
  - intros [Hx Hl] i j a b Hij Hi Hj.
    destruct j as [|j]; [lia|]. simpl in Hj.
    destruct i as [|i]; simpl in Hi.
    + injection Hi as <-. by eapply Forall_lookup_1.
    + apply (Hl i j a b); [lia|done|done].
Qed.

Lemma in_order_sublist l1 l2 :
  l1 `sublist_of` l2 → in_order R l2 → in_order R l1.
Proof.
  induction 1 as [|x l1 l2 Hsub IH|x l1 l2 Hsub IH]; [done| |].
  - rewrite !in_order_cons. intros [Hx Hl]. split; [|by apply IH].
    apply Forall_forall. intros y Hy.
    rewrite Forall_forall in Hx. apply Hx. by eapply elem_of_sublist.
  - rewrite in_order_cons. intros [_ Hl]. by apply IH.
Qed.

Lemma in_order_reverse l : in_order R l → in_order (flip R) (reverse l).
Proof.
  intros H i j a b Hij Hi Hj.
  apply reverse_lookup_Some in Hi as [Hi Hil].
  apply reverse_lookup_Some in Hj as [Hj Hjl].
  apply (H (length l - S j)%nat (length l - S i)%nat b a); [lia|done|done].
Qed.

End InOrder.

Lemma oldest_first_reverse fs : newest_first fs → oldest_first (reverse fs).
Proof. apply (in_order_reverse _ fs). Qed.

Lemma filter_ext_in {A} (P Q : A → Prop)
    `{!∀ x, Decision (P x)} `{!∀ x, Decision (Q x)} (l : list A) :
  (∀ x, x ∈ l → P x ↔ Q x) → filter P l = filter Q l.
Proof.
  induction l as [|x l IH]; intros Hl; [done|].
  rewrite !filter_cons, IH by (intros; apply Hl; by right).
  destruct (decide (P x)) as [Hp|Hp], (decide (Q x)) as [Hq|Hq];
    try done; exfalso; apply (Hl x) in Hp || apply (Hl x) in Hq;
    done || by left.
Qed.

(** ** Properties of the methods *)

Section MethodFacts.

Variable world : World.

Lemma with_filtered_earthquakes_self this :
  with_filtered_earthquakes this (filtered_earthquakes this) = this.
Proof. by destruct this. Qed.

Lemma with_filtered_earthquakes_log_self this :
  with_filtered_earthquakes_log this (filtered_earthquakes_log this) = this.
Proof. by destruct this. Qed.

Lemma state_eta s : {| self := self s; stdout := stdout s |} = s.
Proof. by destruct s. Qed.

Lemma text_match_spec this quakes :
  text_match this quakes = Ok (bool_decide (text_accepts this quakes)).
Proof.
  unfold text_match, text_accepts, item_last.
  rewrite last_split. simpl.
  destruct (decide (properties_type quakes = filter_type this)) as [Ht|Ht].
  - rewrite (bool_decide_eq_true_2 _ Ht). f_equal.
    apply bool_decide_ext. tauto.
  - rewrite (bool_decide_eq_false_2 _ Ht).
    rewrite bool_decide_eq_false_2; [done|tauto].
Qed.

Lemma comprehension_filter {A} (cond : A → result bool) (P : A → Prop)
    `{!∀ x, Decision (P x)} l :
  (∀ x, cond x = Ok (bool_decide (P x))) →
  comprehension cond l = Ok (filter P l).
Proof.
  intros Hc. induction l as [|x l IH]; [done|].
  simpl. rewrite Hc, IH. simpl. rewrite filter_cons.
  destruct (decide (P x)) as [Hp|Hp];
    [by rewrite bool_decide_eq_true_2|by rewrite bool_decide_eq_false_2].
Qed.

Lemma _filter_earthquakes_spec s fs :
  load_features world (usgs_url (self s)) = Ok fs →
  _filter_earthquakes world s =
    ({| self := with_filtered_earthquakes (self s)
                  (filter (text_accepts (self s)) (reverse fs));
        stdout := stdout s |},
     Ok (filter (text_accepts (self s)) (reverse fs))).
Proof.
  intros Hf. unfold _filter_earthquakes. unfold_monad. rewrite Hf.
  by rewrite (comprehension_filter _ (text_accepts (self s)))
    by apply text_match_spec.
Qed.

Lemma geocode_scan_with_filtered this kept l :
  geocode_scan world (with_filtered_earthquakes this kept) l
  = geocode_scan world this l.
Proof.
  induction l as [|q l IH]; [done|].
  simpl. rewrite IH. reflexivity.
Qed.

Lemma geocode_loop_spec l s :
  for_each l (fun quakes =>
    do this <- get_self;
    do location <- lift (_get_location world this (geometry_coordinates quakes));
    if geocode_match this quakes location
    then put_self (with_filtered_earthquakes this
                     (filtered_earthquakes this ++ [quakes]))
    else ret tt) s =
  ({| self := with_filtered_earthquakes (self s)
                (filtered_earthquakes (self s)
                 ++ fst (geocode_scan world (self s) l));
      stdout := stdout s |},
   outcome (snd (geocode_scan world (self s) l))).
Proof.
  revert s. induction l as [|q l IH]; intros s.
  - simpl. unfold_monad. rewrite app_nil_r, with_filtered_earthquakes_self.
    by rewrite state_eta.
  - simpl. unfold_monad.
    destruct (_get_location world (self s) (geometry_coordinates q))
      as [location|e] eqn:Hloc; simpl.
    + destruct (geocode_scan world (self s) l) as [kept stop] eqn:Hscan.
      destruct (geocode_match (self s) q location) eqn:Hm; unfold_monad.
      * rewrite IH. simpl. rewrite geocode_scan_with_filtered, Hscan. simpl.
        by rewrite <- app_assoc.
      * rewrite IH. by rewrite Hscan.
    + rewrite app_nil_r, with_filtered_earthquakes_self. by rewrite state_eta.
Qed.

Lemma _filter_earthquakes_by_coordinates_spec s fs :
  load_features world (usgs_url (self s)) = Ok fs →
  _filter_earthquakes_by_coordinates world s =
    ({| self := with_filtered_earthquakes (self s)
                  (filtered_earthquakes (self s)
                   ++ fst (geocode_scan world (self s) (reverse fs)));
        stdout := stdout s |},
     match snd (geocode_scan world (self s) (reverse fs)) with
     | None => Ok (filtered_earthquakes (self s)
                   ++ fst (geocode_scan world (self s) (reverse fs)))
     | Some e => Raise e
     end).
Proof.
  intros Hf. unfold _filter_earthquakes_by_coordinates.
  unfold bind at 1. unfold get_self at 1.
  unfold bind at 1. unfold lift at 1. rewrite Hf.
  unfold bind at 1. rewrite geocode_loop_spec.
  by destruct (snd (geocode_scan world (self s) (reverse fs))).
Qed.

Lemma _filter_earthquakes_by_coordinates_fails s e :
  load_features world (usgs_url (self s)) = Raise e →
  _filter_earthquakes_by_coordinates world s = (s, Raise e).
Proof.
  intros Hf. unfold _filter_earthquakes_by_coordinates. unfold_monad.
  by rewrite Hf.
Qed.

Lemma log_loop_spec l2 : ∀ l1 s,
  filtered_earthquakes (self s) = l1 ++ l2 →
  for_each (seq (length l1) (length l2)) (fun i =>
    do this <- get_self;
    do quakes <- lift (item (filtered_earthquakes this) i);
    do time <- lift (_convert_time (properties_time quakes));
    do quakes <- lift (item (filtered_earthquakes this) i);
    let place := properties_place quakes in
    do quakes <- lift (item (filtered_earthquakes this) i);
    let magnitude := str_mag (properties_mag quakes) in
    do this <- get_self;
    put_self (with_filtered_earthquakes_log this
                (filtered_earthquakes_log this ++ log_line time place magnitude)) ;;
    print (log_line time place magnitude)) s =
  ({| self := with_filtered_earthquakes_log (self s)
                (filtered_earthquakes_log (self s)
                 ++ concat (fst (log_scan l2)));
      stdout := stdout s ++ fst (log_scan l2) |},
   outcome (snd (log_scan l2))).
Proof.
  induction l2 as [|q l2 IH]; intros l1 s Hl.
  - simpl. unfold_monad.
    rewrite !app_nil_r, with_filtered_earthquakes_log_self.
    by rewrite state_eta.
  - simpl. unfold_monad. unfold item.
    rewrite Hl, list_lookup_middle by done. simpl.
    destruct (_convert_time (properties_time q)) as [t|e] eqn:Ht; simpl.
    + destruct (log_scan l2) as [lines stop] eqn:Hscan.
      specialize (IH (l1 ++ [q])). rewrite length_app in IH. simpl in IH.
      rewrite Nat.add_1_r in IH. rewrite IH.
      * simpl. unfold with_filtered_earthquakes_log. simpl.
        by rewrite <- !app_assoc.
      * simpl. by rewrite Hl, <- app_assoc.
    + rewrite !app_nil_r, with_filtered_earthquakes_log_self.
      by rewrite state_eta.
Qed.

Lemma log_earthquakes_spec s fs :
  load_features world (usgs_url (self s)) = Ok fs →
  let scan := geocode_scan world (self s) (reverse fs) in
  let filtered := filtered_earthquakes (self s) ++ fst scan in
  log_earthquakes world s =
    match snd scan with
    | Some e =>
        ({| self := with_filtered_earthquakes (self s) filtered;
            stdout := stdout s |}, Raise e)
    | None =>
        ({| self := with_filtered_earthquakes_log
                      (with_filtered_earthquakes (self s) filtered)
                      (filtered_earthquakes_log (self s)
                       ++ concat (fst (log_scan filtered)));
            stdout := stdout s ++ fst (log_scan filtered) |},
         outcome (snd (log_scan filtered)))
    end.
Proof.
  intros Hf scan filtered. unfold log_earthquakes.
  unfold bind at 1. rewrite (_filter_earthquakes_by_coordinates_spec _ _ Hf).
  fold scan. fold filtered.
  destruct (snd scan); [done|].
  unfold bind at 1. unfold get_self at 1.
  cbn [self filtered_earthquakes with_filtered_earthquakes].
  by rewrite (log_loop_spec filtered []).
Qed.

Lemma log_earthquakes_fails s e :
  load_features world (usgs_url (self s)) = Raise e →
  log_earthquakes world s = (s, Raise e).
Proof.
  intros Hf. unfold log_earthquakes. unfold bind at 1.
  by rewrite (_filter_earthquakes_by_coordinates_fails _ _ Hf).
Qed.

Lemma geocode_scan_sublist this l :
  fst (geocode_scan world this l) `sublist_of` l.
Proof.
  induction l as [|q l IH]; [done|]. simpl.
  destruct (_get_location world this (geometry_coordinates q));
    [|apply sublist_nil_l].
  destruct (geocode_scan world this l) as [kept stop]. simpl in *.
  destruct (geocode_match this q a); by constructor.
Qed.

Lemma geocode_scan_found this l :
  (∀ q, q ∈ l → ∃ location,
     _get_location world this (geometry_coordinates q) = Ok location) →
  geocode_scan world this l
  = (filter (λ q, geocode_accepts world this q = true) l, None).
Proof.
  induction l as [|q l IH]; intros Hl; [done|].
  simpl. rewrite IH by (intros; apply Hl; by right).
  rewrite filter_cons.
  destruct (Hl q) as [location Hloc]; [by left|]. rewrite Hloc.
  assert (geocode_accepts world this q = geocode_match this q location) as Hacc.
  { unfold geocode_accepts. by rewrite Hloc. }
  destruct (decide (geocode_accepts world this q = true)) as [H|H];
    rewrite Hacc in H; by destruct (geocode_match this q location).
Qed.

Lemma geocode_scan_agree (world' : World) this l :
  (∀ q, q ∈ l → _get_location world this (geometry_coordinates q)
                = _get_location world' this (geometry_coordinates q)) →
  geocode_scan world this l = geocode_scan world' this l.
Proof.
  induction l as [|q l IH]; intros Hl; [done|].
  simpl. rewrite IH by (intros; apply Hl; by right).
  by rewrite (Hl q) by by left.
Qed.

Lemma _filter_earthquakes_by_coordinates_found s fs :
  load_features world (usgs_url (self s)) = Ok fs →
  (∀ q, q ∈ fs → ∃ location,
     _get_location world (self s) (geometry_coordinates q) = Ok location) →
  _filter_earthquakes_by_coordinates world s =
    ({| self := with_filtered_earthquakes (self s)
                  (filtered_earthquakes (self s)
                   ++ filter (λ q, geocode_accepts world (self s) q = true)
                        (reverse fs));
        stdout := stdout s |},
     Ok (filtered_earthquakes (self s)
         ++ filter (λ q, geocode_accepts world (self s) q = true) (reverse fs))).
Proof.
  intros Hf Hl. rewrite (_filter_earthquakes_by_coordinates_spec _ _ Hf).
  by rewrite geocode_scan_found
    by (intros q Hq; apply Hl; by apply elem_of_reverse).
Qed.

End MethodFacts.

Lemma log_scan_converted l :
  (∀ q, q ∈ l → ∃ time, _convert_time (properties_time q) = Ok time) →
  snd (log_scan l) = None ∧ Forall2 printed_as l (fst (log_scan l)).
Proof.
  induction l as [|q l IH]; intros Hl; [by split; [|constructor]|].
  simpl. destruct (Hl q) as [t Ht]; [by left|]. rewrite Ht.
  destruct IH as [Hs Hp]; [intros; apply Hl; by right|].
  destruct (log_scan l) as [lines stop]. simpl in *.
  split; [done|]. constructor; [by exists t|done].
Qed.

Lemma log_scan_printed l :
  ∃ printed,
    printed `prefix_of` l
    ∧ Forall2 printed_as printed (fst (log_scan l))
    ∧ (snd (log_scan l) = None → printed = l).
Proof.
  induction l as [|q l (printed & Hpre & Hlines & Hall)].
  - exists []. by repeat split.
  - simpl. destruct (_convert_time (properties_time q)) as [t|e] eqn:Ht.
    + destruct (log_scan l) as [lines stop]. simpl in *.
      exists (q :: printed). split; [by apply prefix_cons|]. split.
      * constructor; [|done]. by exists t.
      * intros Hs. by rewrite Hall.
    + exists []. split; [apply prefix_nil|]. by split.
Qed.


(** A run in which the feed loads, every lookup answers and the time of
    every kept entry converts prints one line per kept entry, in order. *)
Lemma log_earthquakes_success world s fs :
  load_features world (usgs_url (self s)) = Ok fs →
  filtered_earthquakes (self s) = [] →
  (∀ q, q ∈ fs → ∃ location,
     _get_location world (self s) (geometry_coordinates q) = Ok location) →
  (∀ q, q ∈ fs → geocode_accepts world (self s) q = true →
     ∃ time, _convert_time (properties_time q) = Ok time) →
  ∃ s' lines,
    log_earthquakes world s = (s', Ok tt)
    ∧ stdout s' = stdout s ++ lines
    ∧ filtered_earthquakes (self s')
      = filter (λ q, geocode_accepts world (self s) q = true) (reverse fs)
    ∧ Forall2 printed_as (filtered_earthquakes (self s')) lines.
Proof.
  intros Hf Hempty Hfound Htimes.
  rewrite (log_earthquakes_spec _ _ _ Hf).
  rewrite geocode_scan_found
    by (intros q Hq; apply Hfound; by apply elem_of_reverse).
  rewrite Hempty. simpl.
  set (matched := filter _ (reverse fs)).
  destruct (log_scan_converted matched) as [Hstop Hlines].
  { intros q Hq. apply list_elem_of_filter in Hq as [Hacc Hq].
    apply Htimes; [by apply elem_of_reverse|done]. }
  rewrite Hstop. by do 2 eexists.
Qed.

(** ** The text-match strategy *)

(** C1: the text-match strategy accepts an entry if and only if its event
    type is the configured type, 'earthquake', and the text after the last
    comma of its place, trimmed of surrounding whitespace, is 'CA' or
    'California'; [_filter_earthquakes] returns and stores exactly the
    accepted entries of the feed, so every emitted entry has the configured
    event type. *)
Theorem text_match_accepts_iff (world : World) (s : state) (fs : list Feature) :
  filter_type (self s) = py "earthquake" →
  filter_values (self s) = [py "CA"; py "California"] →
  load_features world (usgs_url (self s)) = Ok fs →
  (∀ quakes, ∃ keep, text_match (self s) quakes = Ok keep ∧
     (keep = true ↔
      properties_type quakes = py "earthquake"
      ∧ strip (after_last_comma (properties_place quakes))
        ∈ [py "CA"; py "California"])
     ∧ ∀ before region,
         properties_place quakes = before ++ comma :: region →
         comma ∉ region →
         (keep = true ↔
          properties_type quakes = py "earthquake"
          ∧ strip region ∈ [py "CA"; py "California"]))
  ∧ ∃ emitted s',
      _filter_earthquakes world s = (s', Ok emitted)
      ∧ filtered_earthquakes (self s') = emitted
      ∧ (∀ quakes, quakes ∈ emitted ↔
           quakes ∈ fs
           ∧ properties_type quakes = py "earthquake"
           ∧ strip (after_last_comma (properties_place quakes))
             ∈ [py "CA"; py "California"])
      ∧ (∀ quakes, quakes ∈ emitted → properties_type quakes = py "earthquake").
Proof.
  intros Hty Hvals Hfeed. split.
  - intros quakes. eexists. split; [apply text_match_spec|].
    assert (bool_decide (text_accepts (self s) quakes) = true ↔
            properties_type quakes = py "earthquake"
            ∧ strip (after_last_comma (properties_place quakes))
              ∈ [py "CA"; py "California"]) as Hiff.
    { rewrite bool_decide_eq_true. unfold text_accepts. by rewrite Hty, Hvals. }
    split; [done|]. intros before region Hplace Hregion.
    by rewrite Hiff, Hplace, after_last_comma_app.
  - do 2 eexists. split; [by apply _filter_earthquakes_spec|]. simpl.
    split; [done|].
    assert (∀ quakes, quakes ∈ filter (text_accepts (self s)) (reverse fs) ↔
              quakes ∈ fs ∧ properties_type quakes = py "earthquake"
              ∧ strip (after_last_comma (properties_place quakes))
                ∈ [py "CA"; py "California"]) as Hin.
    { intros quakes. rewrite list_elem_of_filter, elem_of_reverse.
      unfold text_accepts. rewrite Hty, Hvals. tauto. }
    split; [done|]. intros quakes Hq. by apply Hin in Hq as (_ & ? & _).
Qed.

Lemma text_match_accepts_iff_witness :
  ∃ emitted s',
    _filter_earthquakes Sample.world Sample.fresh = (s', Ok emitted)
    ∧ filtered_earthquakes (self s') = emitted
    ∧ (∀ quakes, quakes ∈ emitted ↔
         quakes ∈ Sample.feed
         ∧ properties_type quakes = py "earthquake"
         ∧ strip (after_last_comma (properties_place quakes))
           ∈ [py "CA"; py "California"])
    ∧ (∀ quakes, quakes ∈ emitted → properties_type quakes = py "earthquake").
Proof.
  apply (text_match_accepts_iff Sample.world Sample.fresh Sample.feed);
    reflexivity.
Defined.

(** C2, as stated, fails: an entry whose place is the bare text
    'California', with no comma, is accepted by the text-match strategy. *)
Lemma place_without_comma_accepted :
  (comma ∉ properties_place Sample.bare_place)
  ∧ snd (_filter_earthquakes Sample.world_bare_place Sample.fresh)
    = Ok [Sample.bare_place].
Proof.
  split; [|reflexivity].
  apply (bool_decide_unpack _). vm_compute. exact I.
Qed.

(** C2, amended: for an entry whose place has no comma the text-match
    strategy compares the whole place, trimmed, with the region labels: the
    entry is accepted if and only if its event type is the configured one
    and its trimmed place is one of the labels.  'Pacific-Antarctic Ridge'
    is therefore excluded. *)
Theorem text_match_without_comma (this : Earthquakes) (quakes : Feature) :
  comma ∉ properties_place quakes →
  text_match this quakes =
    Ok (bool_decide (properties_type quakes = filter_type this
                     ∧ strip (properties_place quakes) ∈ filter_values this))
  ∧ (properties_place quakes = py "Pacific-Antarctic Ridge" →
     filter_values this = [py "CA"; py "California"] →
     text_match this quakes = Ok false).
Proof.
  intros Hn.
  assert (text_match this quakes =
    Ok (bool_decide (properties_type quakes = filter_type this
                     ∧ strip (properties_place quakes) ∈ filter_values this)))
    as Hm.
  { rewrite text_match_spec. f_equal. apply bool_decide_ext.
    unfold text_accepts. by rewrite after_last_comma_no_comma. }
  split; [done|]. intros Hp Hv. rewrite Hm. f_equal.
  apply bool_decide_eq_false. rewrite Hp, Hv. intros [_ Hin].
  revert Hin. apply (bool_decide_unpack _). vm_compute. exact I.
Qed.

Lemma text_match_without_comma_witness :
  text_match (self Sample.fresh) Sample.ridge = Ok false.
Proof.
  destruct (text_match_without_comma (self Sample.fresh) Sample.ridge) as [_ H].
  - apply (bool_decide_unpack _). vm_compute. exact I.
  - apply H; reflexivity.
Defined.

(** ** The constructor *)

(** C9: whatever arguments the constructor receives, the instance has
    [filter_values = ['CA', 'California']] and [filter_type = 'earthquake'];
    two instances built from different arguments are equal, so every method
    behaves on one as on the other. *)
Theorem init_ignores_arguments {A B : Type} (fv : A) (ft : B) :
  filter_values (__init__ fv ft) = [py "CA"; py "California"]
  ∧ filter_type (__init__ fv ft) = py "earthquake"
  ∧ ∀ {A' B' : Type} (fv' : A') (ft' : B'),
      __init__ fv ft = __init__ fv' ft'
      ∧ ∀ world out,
          log_earthquakes world {| self := __init__ fv ft; stdout := out |}
          = log_earthquakes world {| self := __init__ fv' ft'; stdout := out |}.
Proof. repeat split. Qed.

(** ** Order of the output *)

(** C3: both strategies reverse the fetched feed and keep some of its
    entries in that order, without sorting.  When the feed lists the newest
    entry first, what [_filter_earthquakes] returns, what
    [_filter_earthquakes_by_coordinates] leaves in a new instance, and the
    entries whose lines [log_earthquakes] prints, in the order of the lines,
    are all ordered by time, the oldest first. *)
Theorem output_oldest_first (world : World) (s : state) (fs : list Feature) :
  load_features world (usgs_url (self s)) = Ok fs →
  newest_first fs →
  (∃ emitted s',
     _filter_earthquakes world s = (s', Ok emitted)
     ∧ emitted `sublist_of` reverse fs
     ∧ oldest_first emitted)
  ∧ (filtered_earthquakes (self s) = [] →
     (∀ s' r, _filter_earthquakes_by_coordinates world s = (s', r) →
        filtered_earthquakes (self s') `sublist_of` reverse fs
        ∧ oldest_first (filtered_earthquakes (self s'))
        ∧ ∀ emitted, r = Ok emitted → emitted = filtered_earthquakes (self s'))
     ∧ (∀ s' r, log_earthquakes world s = (s', r) →
        ∃ printed lines,
          stdout s' = stdout s ++ lines
          ∧ Forall2 printed_as printed lines
          ∧ printed `prefix_of` filtered_earthquakes (self s')
          ∧ oldest_first printed
          ∧ (r = Ok tt → printed = filtered_earthquakes (self s')))).
Proof.
  intros Hfeed Hnew.
  pose proof (oldest_first_reverse _ Hnew) as Hold.
  assert (∀ l, l `sublist_of` reverse fs → oldest_first l) as Hsub.
  { intros l Hl. by apply (in_order_sublist _ _ _ Hl). }
  split; [|intros Hempty; split].
  - do 2 eexists. split; [by apply _filter_earthquakes_spec|].
    split; [apply sublist_filter|]. apply Hsub, sublist_filter.
  - intros s' r. rewrite (_filter_earthquakes_by_coordinates_spec _ _ _ Hfeed).
    rewrite Hempty. intros [= <- <-]. simpl.
    pose proof (geocode_scan_sublist world (self s) (reverse fs)) as Hscan.
    split; [done|]. split; [by apply Hsub|].
    intros emitted. by destruct (snd (geocode_scan _ _ _)); intros [= <-].
  - intros s' r. rewrite (log_earthquakes_spec _ _ _ Hfeed).
    rewrite Hempty. simpl.
    pose proof (geocode_scan_sublist world (self s) (reverse fs)) as Hscan.
    destruct (snd (geocode_scan world (self s) (reverse fs))).
    + intros [= <- <-]. exists [], []. simpl. rewrite app_nil_r.
      repeat split; [constructor|apply prefix_nil|apply in_order_nil|done].
    + intros [= <- <-]. simpl.
      destruct (log_scan_printed (fst (geocode_scan world (self s) (reverse fs))))
        as (printed & Hpre & Hlines & Hall).
      exists printed, (fst (log_scan (fst (geocode_scan world (self s) (reverse fs))))).
      repeat split; [done|done| |].
      * apply Hsub. destruct Hpre as [k Hk]. rewrite Hk in Hscan.
        etrans; [|exact Hscan]. by apply sublist_inserts_r.
      * intros Hr. apply Hall.
        by destruct (snd (log_scan _)).
Qed.

Lemma sample_feed_newest_first : newest_first Sample.feed.
Proof.
  unfold newest_first, Sample.feed.
  repeat (apply in_order_cons; split;
          [repeat constructor; by vm_compute|]).
  apply in_order_nil.
Qed.

Lemma output_oldest_first_witness :
  ∃ emitted s',
    _filter_earthquakes Sample.world Sample.fresh = (s', Ok emitted)
    ∧ emitted `sublist_of` reverse Sample.feed
    ∧ oldest_first emitted.
Proof.
  apply (output_oldest_first Sample.world Sample.fresh Sample.feed);
    [reflexivity|apply sample_feed_newest_first].
Defined.

(** ** The geocode strategy *)

(** C10: [_filter_earthquakes_by_coordinates] appends to
    [self.filtered_earthquakes] and never clears it.  Whatever happens, the
    list it leaves starts with the list it found; when the feed loads and
    every lookup answers, it leaves the list it found followed by the
    matched entries, and a second call on the same instance appends the
    matched entries once more. *)
Theorem geocode_strategy_appends (world : World) (s : state) :
  (∀ s' r, _filter_earthquakes_by_coordinates world s = (s', r) →
     filtered_earthquakes (self s) `prefix_of` filtered_earthquakes (self s'))
  ∧ ∀ fs,
      load_features world (usgs_url (self s)) = Ok fs →
      (∀ q, q ∈ fs → ∃ location,
         _get_location world (self s) (geometry_coordinates q) = Ok location) →
      let before := filtered_earthquakes (self s) in
      let matched :=
        filter (λ q, geocode_accepts world (self s) q = true) (reverse fs) in
      ∃ s1 s2,
        _filter_earthquakes_by_coordinates world s = (s1, Ok (before ++ matched))
        ∧ filtered_earthquakes (self s1) = before ++ matched
        ∧ _filter_earthquakes_by_coordinates world s1
          = (s2, Ok (before ++ matched ++ matched))
        ∧ filtered_earthquakes (self s2) = before ++ matched ++ matched.
Proof.
  split.
  - intros s' r.
    destruct (load_features world (usgs_url (self s))) as [fs|e] eqn:Hf.
    + rewrite (_filter_earthquakes_by_coordinates_spec _ _ _ Hf).
      intros [= <- _]. simpl. by eexists.
    + rewrite (_filter_earthquakes_by_coordinates_fails _ _ _ Hf).
      by intros [= <- _].
  - intros fs Hf Hfound before matched.
    do 2 eexists. split; [by apply _filter_earthquakes_by_coordinates_found|].
    split; [done|].
    rewrite (_filter_earthquakes_by_coordinates_found world _ fs) by done.
    simpl. fold before. by rewrite <- app_assoc.
Qed.

Lemma sample_lookups_answer q :
  q ∈ Sample.feed → ∃ location,
    _get_location Sample.world (self Sample.fresh) (geometry_coordinates q)
    = Ok location.
Proof.
  revert q. apply Forall_forall.
  repeat constructor; eexists; vm_compute; reflexivity.
Qed.

Lemma geocode_strategy_appends_witness :
  ∃ s1 s2,
    _filter_earthquakes_by_coordinates Sample.world Sample.fresh
    = (s1, Ok [Sample.greenville; Sample.ferndale])
    ∧ filtered_earthquakes (self s1) = [Sample.greenville; Sample.ferndale]
    ∧ _filter_earthquakes_by_coordinates Sample.world s1
      = (s2, Ok [Sample.greenville; Sample.ferndale;
                 Sample.greenville; Sample.ferndale])
    ∧ filtered_earthquakes (self s2)
      = [Sample.greenville; Sample.ferndale; Sample.greenville; Sample.ferndale].
Proof.
  exact (proj2 (geocode_strategy_appends Sample.world Sample.fresh)
           Sample.feed eq_refl sample_lookups_answer).
Defined.

(** C5, as stated, fails: on a feed whose only entry is placed in 'CA' by
    its text and in 'Nevada' by the regions service, the text-match strategy
    returns the entry and the geocode strategy returns nothing. *)
Lemma strategies_differ :
  snd (_filter_earthquakes Sample.world_border Sample.fresh) = Ok [Sample.border]
  ∧ snd (_filter_earthquakes_by_coordinates Sample.world_border Sample.fresh)
    = Ok []
  ∧ snd (_filter_earthquakes Sample.world_border Sample.fresh)
    ≠ snd (_filter_earthquakes_by_coordinates Sample.world_border Sample.fresh).
Proof. by vm_compute. Qed.

(** C5, amended: the two strategies return the same sequence, and leave the
    same instance, when the instance starts with an empty list, every
    lookup of the regions service answers, and for every feed entry of the
    configured type the name it answers is one of the region labels exactly
    when the trimmed text after the last comma of the place is. *)
Theorem strategies_agree_when_labels_agree
    (world : World) (s : state) (fs : list Feature) :
  load_features world (usgs_url (self s)) = Ok fs →
  filtered_earthquakes (self s) = [] →
  (∀ q, q ∈ fs → ∃ location,
     _get_location world (self s) (geometry_coordinates q) = Ok location
     ∧ (properties_type q = filter_type (self s) →
        (location ∈ filter_values (self s) ↔
         strip (after_last_comma (properties_place q)) ∈ filter_values (self s)))) →
  ∃ emitted s',
    _filter_earthquakes world s = (s', Ok emitted)
    ∧ _filter_earthquakes_by_coordinates world s = (s', Ok emitted).
Proof.
  intros Hf Hempty Hagree.
  rewrite (_filter_earthquakes_spec _ _ _ Hf).
  rewrite (_filter_earthquakes_by_coordinates_found _ _ _ Hf)
    by (intros q Hq; destruct (Hagree q Hq) as (location & ? & _); eauto).
  rewrite Hempty. simpl.
  assert (filter (λ q, geocode_accepts world (self s) q = true) (reverse fs)
          = filter (text_accepts (self s)) (reverse fs)) as ->; [|by eauto].
  apply filter_ext_in. intros q Hq. rewrite elem_of_reverse in Hq.
  destruct (Hagree q Hq) as (location & Hloc & Hiff).
  unfold geocode_accepts, geocode_match, text_accepts. rewrite Hloc.
  rewrite andb_true_iff, !bool_decide_eq_true. tauto.
Qed.

Lemma sample_labels_agree q :
  q ∈ Sample.feed → ∃ location,
    _get_location Sample.world (self Sample.fresh) (geometry_coordinates q)
    = Ok location
    ∧ (properties_type q = filter_type (self Sample.fresh) →
       (location ∈ filter_values (self Sample.fresh) ↔
        strip (after_last_comma (properties_place q))
        ∈ filter_values (self Sample.fresh))).
Proof.
  revert q. apply Forall_forall.
  repeat constructor;
    (eexists; split;
     [vm_compute; reflexivity
     |apply (bool_decide_unpack _); vm_compute; exact I]).
Qed.

Lemma strategies_agree_when_labels_agree_witness :
  ∃ emitted s',
    _filter_earthquakes Sample.world Sample.fresh = (s', Ok emitted)
    ∧ _filter_earthquakes_by_coordinates Sample.world Sample.fresh
      = (s', Ok emitted).
Proof.
  apply (strategies_agree_when_labels_agree Sample.world Sample.fresh Sample.feed);
    [reflexivity|reflexivity|apply sample_labels_agree].
Defined.

(** ** Runs of the program *)

(** C8: the output of a run is determined by the feed document and by the
    answers of the regions service for the coordinates of the feed entries:
    two runs against networks that agree on these end in the same state,
    with the same lines printed and the same outcome. *)
Theorem runs_are_deterministic (world1 world2 : World) :
  let this := __init__ [py "CA"; py "California"] (py "earthquake") in
  load_features world1 (usgs_url this) = load_features world2 (usgs_url this) →
  (∀ fs q, load_features world1 (usgs_url this) = Ok fs → q ∈ fs →
     _get_location world1 this (geometry_coordinates q)
     = _get_location world2 this (geometry_coordinates q)) →
  main world1 = main world2
  ∧ stdout (fst (main world1)) = stdout (fst (main world2)).
Proof.
  intros this Hfeed Hgeo.
  enough (main world1 = main world2) as H by (by rewrite H).
  unfold main. fold this.
  destruct (load_features world1 (usgs_url this)) as [fs|e] eqn:Hf1.
  - rewrite (log_earthquakes_spec world1 _ fs) by done.
    rewrite (log_earthquakes_spec world2 _ fs) by done.
    simpl.
    by rewrite (geocode_scan_agree world1 world2)
      by (intros q Hq; apply (Hgeo fs); [done|by apply elem_of_reverse]).
  - rewrite (log_earthquakes_fails world1 _ e) by done.
    by rewrite (log_earthquakes_fails world2 _ e) by done.
Qed.

Lemma runs_are_deterministic_witness :
  main Sample.world = main Sample.world_with_more
  ∧ stdout (fst (main Sample.world)) = stdout (fst (main Sample.world_with_more)).
Proof.
  apply (runs_are_deterministic Sample.world Sample.world_with_more);
    [reflexivity|].
  intros fs q [= <-]. revert q. apply Forall_forall.
  repeat constructor.
Defined.

(** ** The printed lines *)

(** C4, as stated, fails: on a feed whose only entry has no magnitude, the
    run ends normally and has printed a line for the entry, with the text
    'None' for the magnitude. *)
Lemma absent_magnitude_is_printed :
  properties_mag Sample.no_magnitude = None
  ∧ snd (main Sample.world_no_magnitude) = Ok tt
  ∧ stdout (fst (main Sample.world_no_magnitude))
    = [py "2017-07-14T02:40:00+0000 | 10km W of Anza, CA | magnitude : None"].
Proof. by vm_compute. Qed.

(** C4, amended: [str] of an absent magnitude is the text 'None' and is
    not an error.  In a run on a new instance in which the feed loads, every
    lookup answers and the time of every kept entry converts, the run ends
    normally with one line per kept entry, and the line of a kept entry
    whose magnitude is absent ends in 'magnitude : None'. *)
Theorem absent_magnitude_prints_None
    (world : World) (s : state) (fs : list Feature) :
  load_features world (usgs_url (self s)) = Ok fs →
  filtered_earthquakes (self s) = [] →
  (∀ q, q ∈ fs → ∃ location,
     _get_location world (self s) (geometry_coordinates q) = Ok location) →
  (∀ q, q ∈ fs → geocode_accepts world (self s) q = true →
     ∃ time, _convert_time (properties_time q) = Ok time) →
  ∃ s' lines,
    log_earthquakes world s = (s', Ok tt)
    ∧ stdout s' = stdout s ++ lines
    ∧ length lines = length (filtered_earthquakes (self s'))
    ∧ ∀ (i : nat) q,
        filtered_earthquakes (self s') !! i = Some q →
        properties_mag q = None →
        ∃ time, _convert_time (properties_time q) = Ok time
          ∧ lines !! i = Some (time ++ py " | " ++ properties_place q
                               ++ py " | magnitude : None").
Proof.
  intros Hf Hempty Hfound Htimes.
  destruct (log_earthquakes_success _ _ _ Hf Hempty Hfound Htimes)
    as (s' & lines & Hrun & Hout & _ & Hlines).
  exists s', lines. repeat split; [done|done| |].
  - symmetry. by eapply Forall2_length.
  - intros i q Hi Hmag.
    destruct (Forall2_lookup_l _ _ _ _ _ Hlines Hi) as (line & Hline & t & Ht & ->).
    exists t. by rewrite Hmag in Hline.
Qed.

Lemma sample_no_magnitude_lookups q :
  q ∈ [Sample.no_magnitude] → ∃ location,
    _get_location Sample.world_no_magnitude (self Sample.fresh)
      (geometry_coordinates q) = Ok location.
Proof.
  revert q. apply Forall_forall.
  repeat constructor; eexists; vm_compute; reflexivity.
Qed.

Lemma sample_no_magnitude_times q :
  q ∈ [Sample.no_magnitude] →
  geocode_accepts Sample.world_no_magnitude (self Sample.fresh) q = true →
  ∃ time, _convert_time (properties_time q) = Ok time.
Proof.
  intros ->%list_elem_of_singleton _.
  eexists. vm_compute. reflexivity.
Qed.

Lemma absent_magnitude_prints_None_witness :
  ∃ s' lines,
    log_earthquakes Sample.world_no_magnitude Sample.fresh = (s', Ok tt)
    ∧ stdout s' = stdout Sample.fresh ++ lines
    ∧ length lines = length (filtered_earthquakes (self s'))
    ∧ ∀ (i : nat) q,
        filtered_earthquakes (self s') !! i = Some q →
        properties_mag q = None →
        ∃ time, _convert_time (properties_time q) = Ok time
          ∧ lines !! i = Some (time ++ py " | " ++ properties_place q
                               ++ py " | magnitude : None").
Proof.
  apply (absent_magnitude_prints_None Sample.world_no_magnitude Sample.fresh
           [Sample.no_magnitude]);
    [reflexivity|reflexivity
    |apply sample_no_magnitude_lookups|apply sample_no_magnitude_times].
Defined.

(** C7: the line printed for a kept entry is its formatted time, its place
    and the text of its magnitude, joined as
    [<time> | <place> | magnitude : <magnitude>].  The text of a magnitude
    is [str] of the value: the magnitude 1, an integer of the feed, gives
    '1' without '.0', and the magnitude 2.76 gives '2.76'.  On the sample
    feed the program prints the two lines below. *)
Theorem printed_line_format (world : World) (s : state) (fs : list Feature) :
  load_features world (usgs_url (self s)) = Ok fs →
  filtered_earthquakes (self s) = [] →
  (∀ q, q ∈ fs → ∃ location,
     _get_location world (self s) (geometry_coordinates q) = Ok location) →
  (∀ q, q ∈ fs → geocode_accepts world (self s) q = true →
     ∃ time, _convert_time (properties_time q) = Ok time) →
  (∃ s' lines,
     log_earthquakes world s = (s', Ok tt)
     ∧ stdout s' = stdout s ++ lines
     ∧ length lines = length (filtered_earthquakes (self s'))
     ∧ ∀ (i : nat) q,
         filtered_earthquakes (self s') !! i = Some q →
         ∃ time, _convert_time (properties_time q) = Ok time
           ∧ lines !! i = Some (time ++ py " | " ++ properties_place q
                                ++ py " | magnitude : "
                                ++ str_mag (properties_mag q)))
  ∧ str_mag (Some (Int 1)) = py "1"
  ∧ str_mag (Some (Float (PyFloat.of_decimal false 276 (-2)))) = py "2.76"
  ∧ stdout (fst (main Sample.world))
    = [py "2017-07-13T20:43:37+0000 | 3km NW of Greenville, California | magnitude : 1";
       py "2017-07-13T22:09:53+0000 | 41km SW of Ferndale, California | magnitude : 2.76"].
Proof.
  intros Hf Hempty Hfound Htimes.
  split; [|by vm_compute].
  destruct (log_earthquakes_success _ _ _ Hf Hempty Hfound Htimes)
    as (s' & lines & Hrun & Hout & _ & Hlines).
  exists s', lines. repeat split; [done|done| |].
  - symmetry. by eapply Forall2_length.
  - intros i q Hi.
    destruct (Forall2_lookup_l _ _ _ _ _ Hlines Hi) as (line & Hline & t & Ht & ->).
    by exists t.
Qed.

Lemma sample_times_convert q :
  q ∈ Sample.feed →
  geocode_accepts Sample.world (self Sample.fresh) q = true →
  ∃ time, _convert_time (properties_time q) = Ok time.
Proof.
  intros Hq _. revert q Hq. apply Forall_forall.
  repeat constructor; eexists; vm_compute; reflexivity.
Qed.

Lemma printed_line_format_witness :
  ∃ s' lines,
    log_earthquakes Sample.world Sample.fresh = (s', Ok tt)
    ∧ stdout s' = stdout Sample.fresh ++ lines
    ∧ length lines = length (filtered_earthquakes (self s'))
    ∧ ∀ (i : nat) q,
        filtered_earthquakes (self s') !! i = Some q →
        ∃ time, _convert_time (properties_time q) = Ok time
          ∧ lines !! i = Some (time ++ py " | " ++ properties_place q
                               ++ py " | magnitude : "
                               ++ str_mag (properties_mag q)).
Proof.
  exact (proj1 (printed_line_format Sample.world Sample.fresh Sample.feed
                  eq_refl eq_refl sample_lookups_answer sample_times_convert)).
Defined.

(** ** The time conversion *)

(** C6: for a timestamp of the years 1000 to 9999, [_convert_time] divides
    the milliseconds by 1000, takes the whole seconds, [ms / 1000] rounded
    down, as a UTC instant and returns its calendar fields as the 24
    characters [YYYY-MM-DDTHH:MM:SS+0000]: the fields are a valid date and
    time of day and count back to the same second.  The timestamp
    1500000000000 gives '2017-07-14T02:40:00+0000'. *)
Theorem convert_time_iso (ms : Z) :
  (-30610224000000 <= ms < 253402300800000)%Z →
  let dt := PyTime.gmtime (ms / 1000) in
  (_convert_time ms = Ok (iso_text dt)
   ∧ PyTime.timegm dt = (ms / 1000)%Z
   ∧ valid_tm dt
   ∧ (1000 <= PyTime.tm_year dt <= 9999)%Z
   ∧ length (iso_text dt) = 24%nat)
  ∧ _convert_time 1500000000000 = Ok (py "2017-07-14T02:40:00+0000").
Proof.
  intros Hms dt. split; [|by vm_compute].
  assert ((1000 <= PyTime.tm_year dt <= 9999)%Z) as Hy.
  { apply gmtime_year. Z.div_mod_to_equations. lia. }
  split.
  - unfold _convert_time.
    destruct (fromtimestamp_of_ms ms Hms) as (t & -> & ->).
    fold dt. by rewrite strftime_iso_text.
  - split; [apply timegm_gmtime|]. split; [apply gmtime_valid|]. by split.
Qed.

Lemma convert_time_iso_witness :
  _convert_time 1499978617000
  = Ok (iso_text (PyTime.gmtime (1499978617000 / 1000))).
Proof.
  apply (convert_time_iso 1499978617000). lia.
Defined.

(** * Further properties of the methods and of what they call *)

(** ** Splitting and trimming *)

Section MoreStringFacts.

Lemma split_nonempty sep s : ∃ p ps, split sep s = p :: ps.
Proof.
  destruct s as [|c s]; simpl; [by eauto|].
  destruct (c =? sep)%N; [by eauto|].
  destruct (split sep s); by eauto.
Qed.

Lemma join_split sep s : join [sep] (split sep s) = s.
Proof.
  induction s as [|c s IH]; [done|]. simpl.
  destruct (split_nonempty sep s) as (p & ps & Hs). rewrite Hs in *.
  destruct (N.eqb_spec c sep) as [->|Hne].
  - change (join [sep] ([] :: p :: ps)) with (sep :: join [sep] (p :: ps)).
    by rewrite IH.
  - destruct ps as [|q ps]; simpl in *; by rewrite <- IH.
Qed.

Lemma split_pieces sep s : Forall (λ p, sep ∉ p) (split sep s).
Proof.
  induction s as [|c s IH]; simpl.
  - repeat constructor. apply not_elem_of_nil.
  - destruct (N.eqb_spec c sep) as [->|Hne].
    + constructor; [apply not_elem_of_nil|done].
    + destruct (split sep s) as [|p ps]; [repeat constructor|].
      * intros [?|H]%elem_of_cons; [done|by apply elem_of_nil in H].
      * apply Forall_cons in IH as [Hp Hps]. constructor; [|done].
        intros [?|H]%elem_of_cons; done.
Qed.

Lemma length_split sep (s : list char) :
  length (split sep s) = S (length (filter (λ c, c = sep) s)).
Proof.
  induction s as [|c s IH]; [done|]. rewrite filter_cons. cbn [split].
  destruct (split_nonempty sep s) as (p & ps & Hs). rewrite Hs in *.
  destruct (N.eqb_spec c sep) as [->|Hne].
  - rewrite decide_True by done. cbn [length] in *. by rewrite IH.
  - rewrite decide_False by done. by rewrite <- IH.
Qed.

Lemma lstrip_decompose s :
  ∃ ws, s = ws ++ lstrip s ∧ Forall (λ c, isspace c = true) ws
        ∧ ∀ c rest, lstrip s = c :: rest → isspace c = false.
Proof.
  induction s as [|c s (ws & Hs & Hws & Hhead)].
  - exists []. by repeat split.
  - simpl. destruct (isspace c) eqn:Hc.
    + exists (c :: ws). split; [by rewrite Hs at 1|]. split; [by constructor|done].
    + exists []. split; [done|]. split; [constructor|]. by intros ? ? [= <- _].
Qed.

Lemma strip_decompose s :
  ∃ ws1 ws2,
    s = ws1 ++ strip s ++ ws2
    ∧ Forall (λ c, isspace c = true) ws1
    ∧ Forall (λ c, isspace c = true) ws2
    ∧ (∀ c rest, strip s = c :: rest → isspace c = false)
    ∧ (∀ c, last (strip s) = Some c → isspace c = false).
Proof.
  destruct (lstrip_decompose s) as (ws1 & Hs & Hws1 & Hhead).
  destruct (lstrip_decompose (reverse (lstrip s))) as (ws2 & Hr & Hws2 & Hlast).
  unfold strip, rstrip.
  set (t := lstrip s) in *. set (u := lstrip (reverse t)) in *.
  assert (t = reverse u ++ reverse ws2) as Ht.
  { rewrite <- reverse_app, <- Hr. by rewrite reverse_involutive. }
  exists ws1, (reverse ws2). split; [by rewrite <- Ht|].
  split; [done|]. split; [by apply Forall_reverse|]. split.
  - intros c rest Hu. apply (Hhead c (rest ++ reverse ws2)).
    by rewrite Ht, Hu.
  - intros c Hc. rewrite last_reverse in Hc.
    destruct u as [|c' u']; [done|]. simpl in Hc. injection Hc as ->.
    by eapply Hlast.
Qed.

Lemma after_last_comma_decompose s :
  (comma ∉ after_last_comma s)
  ∧ (s = after_last_comma s ∨ ∃ before, s = before ++ comma :: after_last_comma s).
Proof.
  induction s as [|c s [IH1 IH2]]; [split; [apply not_elem_of_nil|by left]|].
  simpl. destruct (decide (comma ∈ s)) as [Hs|Hs].
  - rewrite bool_decide_eq_true_2 by done. split; [done|]. right.
    destruct IH2 as [Heq|[before Heq]].
    + rewrite <- Heq in IH1. done.
    + exists (c :: before). by rewrite Heq at 1.
  - rewrite bool_decide_eq_false_2 by done.
    destruct (N.eqb_spec c comma) as [->|Hne].
    + split; [done|]. right. by exists [].
    + split; [|by left]. by intros [?|?]%elem_of_cons.
Qed.

Lemma lstrip_app_space ws s :
  Forall (λ c, isspace c = true) ws → lstrip (ws ++ s) = lstrip s.
Proof. induction 1 as [|c ws Hc _ IH]; [done|]. simpl. by rewrite Hc. Qed.

Lemma lstrip_all_space ws :
  Forall (λ c, isspace c = true) ws → lstrip ws = [].
Proof. intros H. rewrite <- (app_nil_r ws). by rewrite lstrip_app_space. Qed.

Lemma lstrip_app_nonempty s t c r :
  lstrip s = c :: r → lstrip (s ++ t) = (c :: r) ++ t.
Proof.
  induction s as [|a s IH]; [done|]. simpl.
  destruct (isspace a); [apply IH|]. by intros [= -> ->].
Qed.

Lemma rstrip_app_space s ws :
  Forall (λ c, isspace c = true) ws → rstrip (s ++ ws) = rstrip s.
Proof.
  intros Hws. unfold rstrip. rewrite reverse_app.
  by rewrite lstrip_app_space by by apply Forall_reverse.
Qed.

Lemma strip_app_space ws1 s ws2 :
  Forall (λ c, isspace c = true) ws1 →
  Forall (λ c, isspace c = true) ws2 →
  strip (ws1 ++ s ++ ws2) = strip s.
Proof.
  intros H1 H2. unfold strip. rewrite lstrip_app_space by done.
  destruct (lstrip s) as [|c r] eqn:Hs.
  - assert (lstrip (s ++ ws2) = []) as ->; [|done].
    clear H1. induction s as [|a s IH]; simpl in *; [by apply lstrip_all_space|].
    destruct (isspace a); [by apply IH|done].
  - rewrite (lstrip_app_nonempty s ws2 c r) by done.
    by rewrite rstrip_app_space.
Qed.

End MoreStringFacts.

(** [','.join(s.split(','))] is [s] again, no piece contains the
    separator, and there is one piece more than there are separators. *)
Theorem split_join_round_trip (sep : char) (s : list char) :
  join [sep] (split sep s) = s
  ∧ Forall (λ piece, sep ∉ piece) (split sep s)
  ∧ length (split sep s) = S (length (filter (λ c, c = sep) s)).
Proof.
  split; [apply join_split|].
  split; [apply split_pieces|apply length_split].
Qed.

(** The region that [_filter_earthquakes] compares: the last piece of the
    split place exists, has no comma and is the whole place or what follows
    a comma of it; trimming removes whitespace from its two ends and nothing
    else, and what remains neither starts nor ends with whitespace. *)
Theorem region_is_trimmed_last_piece (place : str) :
  ∃ piece ws1 ws2,
    item_last (split comma place) = Ok piece
    ∧ (comma ∉ piece)
    ∧ (place = piece ∨ ∃ before, place = before ++ comma :: piece)
    ∧ piece = ws1 ++ strip piece ++ ws2
    ∧ Forall (λ c, isspace c = true) ws1
    ∧ Forall (λ c, isspace c = true) ws2
    ∧ (∀ c rest, strip piece = c :: rest → isspace c = false)
    ∧ (∀ c, last (strip piece) = Some c → isspace c = false).
Proof.
  destruct (after_last_comma_decompose place) as [Hno Hdec].
  destruct (strip_decompose (after_last_comma place))
    as (ws1 & ws2 & Hp & Hws1 & Hws2 & Hhead & Hlast).
  exists (after_last_comma place), ws1, ws2.
  split; [unfold item_last; by rewrite last_split|]. done.
Qed.

(** [strip] drops any whitespace around a text, and trimming twice is
    trimming once. *)
Theorem strip_ignores_surrounding_whitespace (ws1 s ws2 : str) :
  Forall (λ c, isspace c = true) ws1 →
  Forall (λ c, isspace c = true) ws2 →
  strip (ws1 ++ s ++ ws2) = strip s
  ∧ strip (strip s) = strip s.
Proof.
  intros H1 H2. split; [by apply strip_app_space|].
  destruct (strip_decompose s) as (w1 & w2 & Hs & Hw1 & Hw2 & _).
  rewrite Hs at 2. symmetry. by apply strip_app_space.
Qed.

Lemma strip_ignores_surrounding_whitespace_witness :
  strip (py "  " ++ py "CA" ++ py " ") = strip (py "CA")
  ∧ strip (strip (py "CA")) = strip (py "CA").
Proof.
  apply (strip_ignores_surrounding_whitespace (py "  ") (py "CA") (py " "));
    by repeat constructor.
Defined.

(** Whitespace around the region of a place does not change what the
    text-match strategy decides: for a place that ends in a comma, some
    whitespace, a text without comma and some whitespace, the entry is
    accepted exactly when its event type is the configured one and the
    trimmed text is one of the region labels. *)
Theorem text_match_ignores_whitespace (this : Earthquakes) (quakes : Feature)
    (before ws1 region ws2 : str) :
  properties_place quakes = before ++ comma :: ws1 ++ region ++ ws2 →
  comma ∉ region →
  Forall (λ c, isspace c = true) ws1 →
  Forall (λ c, isspace c = true) ws2 →
  text_match this quakes =
    Ok (bool_decide (properties_type quakes = filter_type this
                     ∧ strip region ∈ filter_values this)).
Proof.
  intros Hplace Hregion H1 H2.
  assert (∀ ws, Forall (λ c, isspace c = true) ws → comma ∉ ws) as Hws.
  { intros ws Hall Hin. rewrite Forall_forall in Hall.
    apply Hall in Hin. by vm_compute in Hin. }
  rewrite text_match_spec. f_equal. apply bool_decide_ext.
  unfold text_accepts. rewrite Hplace, after_last_comma_app.
  - by rewrite strip_app_space.
  - rewrite !elem_of_app. intros [?|[?|?]];
      [by apply (Hws ws1)|done|by apply (Hws ws2)].
Qed.

Lemma text_match_ignores_whitespace_witness :
  text_match (self Sample.fresh) Sample.greenville = Ok true.
Proof.
  rewrite (text_match_ignores_whitespace (self Sample.fresh) Sample.greenville
             (py "3km NW of Greenville") (py " ") (py "California") []);
    [reflexivity|reflexivity| |by repeat constructor|constructor].
  apply (bool_decide_unpack _). by vm_compute.
Defined.

(** ** Texts of numbers and the request of [_get_location] *)

Section NumberTextFacts.

Import PyFloat.

Lemma string_of_uint_digits d :
  Forall (λ c, is_digit c = true) (py (NilEmpty.string_of_uint d)).
Proof. induction d; simpl; constructor; done. Qed.

Lemma str_int_chars n :
  Forall (λ c, is_digit c = true ∨ c = 0x2D%N) (str_int n).
Proof.
  assert (∀ d, Forall (λ c, is_digit c = true ∨ c = 0x2D%N)
                 (py (NilZero.string_of_uint d))) as Hu.
  { intros d. apply (Forall_impl (λ c, is_digit c = true)); [|intros ? ?; by left].
    destruct d; try apply (string_of_uint_digits (_ _)); try apply string_of_uint_digits.
    by repeat constructor. }
  unfold str_int. destruct (Z.to_int n) as [d|d]; simpl; [apply Hu|].
  constructor; [by right|apply Hu].
Qed.

Lemma place_point_mark ds decpt :
  0x2E%N ∈ place_point ds decpt ∨ 0x65%N ∈ place_point ds decpt.
Proof.
  unfold place_point.
  destruct ((decpt <=? -4)%Z || (16 <? decpt)%Z).
  - right. rewrite !elem_of_app. right. right. left. by left.
  - left. destruct (decpt <=? 0)%Z.
    + rewrite elem_of_app. left. right. by left.
    + destruct (Z.of_nat (length ds) <=? decpt)%Z.
      * rewrite !elem_of_app. right. right. by left.
      * rewrite !elem_of_app. right. left. by left.
Qed.

(** [str] tells an [int] from a [float]: the text of an [int] is made of
    digits and a sign, the text of a [float] has a point, an exponent or is
    [nan] or [inf]; the two are never the same text. *)
Theorem int_and_float_texts_differ (n : Z) (x : float) :
  Forall (λ c, is_digit c = true ∨ c = 0x2D%N) (str_number (Int n))
  ∧ (0x2E%N ∈ str_number (Float x) ∨ 0x65%N ∈ str_number (Float x)
     ∨ 0x6E%N ∈ str_number (Float x))
  ∧ str_number (Int n) ≠ str_number (Float x).
Proof.
  assert (0x2E%N ∈ float_repr x ∨ 0x65%N ∈ float_repr x ∨ 0x6E%N ∈ float_repr x)
    as Hmark.
  { destruct x as [|neg|neg m e]; simpl.
    - right. right. by apply (bool_decide_unpack _).
    - right. right. by destruct neg; apply (bool_decide_unpack _).
    - assert (∀ c rest, c ∈ rest → c ∈ py (if neg then "-" else "") ++ rest) as Hsign.
      { intros c rest Hc. apply elem_of_app. by right. }
      destruct (m =? 0)%Z.
      + left. apply Hsign. right. by left.
      + destruct (shortest m e) as [c p].
        destruct (place_point_mark (rstrip_zeros (str_int c))
                    (p + Z.of_nat (length (str_int c)))) as [H|H]; auto. }
  split; [apply str_int_chars|]. split; [done|].
  simpl. intros Heq. rewrite <- Heq in Hmark.
  pose proof (str_int_chars n) as Hn. rewrite Forall_forall in Hn.
  destruct Hmark as [H|[H|H]]; apply Hn in H as [H|H]; done.
Qed.

End NumberTextFacts.

Section UrlFacts.

Import PyFloat UrlEncode.
Local Open Scope N_scope.

Lemma hex_digit_safe n : n < 16 → url_safe (hex_digit n) = true.
Proof.
  intros Hn.
  assert (Forall (λ n, url_safe (hex_digit n) = true) (N.of_nat <$> seq 0 16)) as Hall
    by (by apply (bool_decide_unpack _)).
  rewrite Forall_forall in Hall. apply Hall.
  apply list_elem_of_fmap. exists (N.to_nat n). split; [lia|].
  apply elem_of_seq. lia.
Qed.

Lemma percent_safe byte : byte < 256 → Forall (λ c, url_safe c = true) (percent byte).
Proof.
  intros Hb. unfold percent. repeat constructor.
  - apply hex_digit_safe. apply N.Div0.div_lt_upper_bound. lia.
  - apply hex_digit_safe. apply N.mod_lt. lia.
Qed.

Lemma utf8_bytes c : c < 0x110000 → Forall (λ b, b < 256) (utf8 c).
Proof.
  intros Hc. unfold utf8.
  destruct (N.ltb_spec c 0x80); [repeat constructor; lia|].
  destruct (N.ltb_spec c 0x800).
  { repeat constructor.
    - assert (c / 64 < 32) by (apply N.Div0.div_lt_upper_bound; lia). lia.
    - assert (c mod 64 < 64) by (apply N.mod_lt; lia). lia. }
  destruct (N.ltb_spec c 0x10000).
  { repeat constructor.
    - assert (c / 4096 < 16) by (apply N.Div0.div_lt_upper_bound; lia). lia.
    - assert (c / 64 mod 64 < 64) by (apply N.mod_lt; lia). lia.
    - assert (c mod 64 < 64) by (apply N.mod_lt; lia). lia. }
  repeat constructor.
  - assert (c / 262144 < 8) by (apply N.Div0.div_lt_upper_bound; lia). lia.
  - assert (c / 4096 mod 64 < 64) by (apply N.mod_lt; lia). lia.
  - assert (c / 64 mod 64 < 64) by (apply N.mod_lt; lia). lia.
  - assert (c mod 64 < 64) by (apply N.mod_lt; lia). lia.
Qed.

Lemma Forall_flat_map {A B} (P : B → Prop) (f : A → list B) (l : list A) :
  Forall (λ x, Forall P (f x)) l → Forall P (flat_map f l).
Proof.
  induction 1 as [|x l Hx _ IH]; simpl; [constructor|].
  by apply Forall_app.
Qed.

Lemma py_bounded s : Forall (λ c, c < 256) (py s).
Proof.
  unfold py. induction s as [|a s IH]; simpl; constructor; [|done].
  apply N_ascii_bounded.
Qed.

Lemma rstrip_zeros_bounded (P : char → Prop) ds :
  Forall P ds → Forall P (rstrip_zeros ds).
Proof.
  intros Hds. unfold rstrip_zeros. apply Forall_reverse.
  apply Forall_reverse in Hds. revert Hds.
  generalize (reverse ds). intros l Hl.
  induction Hl as [|c l Hc Hl IH]; [constructor|].
  destruct (c =? zero_char); [done|by constructor].
Qed.

Lemma place_point_bounded ds decpt :
  Forall (λ c, c < 256) ds → Forall (λ c, c < 256) (place_point ds decpt).
Proof.
  intros Hds. unfold place_point, exponent_text, zeros, str_int.
  repeat first
    [ apply Forall_app; split
    | apply py_bounded
    | apply Forall_take
    | apply Forall_drop
    | apply Forall_replicate; unfold zero_char; lia
    | done
    | match goal with |- Forall _ (if ?b then _ else _) => destruct b end
    | by repeat constructor ].
Qed.

Lemma str_number_bounded v : Forall (λ c, c < 0x110000) (str_number v).
Proof.
  apply (Forall_impl (λ c, c < 256)); [|intros; lia].
  destruct v as [n|x]; simpl; [apply py_bounded|].
  destruct x as [| |neg m e]; simpl; try apply py_bounded.
  apply Forall_app. split; [apply py_bounded|].
  destruct (m =? 0)%Z; [apply py_bounded|].
  destruct (shortest m e) as [c p].
  apply place_point_bounded, rstrip_zeros_bounded, py_bounded.
Qed.

Lemma location_url_text (base a b : str) :
  base ++ py "?"
  ++ urlencode [(py "longitude", a); (py "latitude", b);
                (py "type", py "neiccatalog")]
  = base ++ py "?longitude=" ++ quote_plus a
    ++ py "&latitude=" ++ quote_plus b ++ py "&type=neiccatalog".
Proof.
  reflexivity.
Qed.

(** [quote_plus] of a text of Unicode code points, surrogates apart (which
    Python refuses to encode), is made of unreserved characters, ['%'] and
    ['+'] only: it has no ['&'], ['='], ['?'], ['#'], ['/'] and no space. *)
Theorem quote_plus_is_url_safe (s : str) :
  Forall (λ c, (c < 0xD800 ∨ 0xE000 <= c < 0x110000)%N) s →
  Forall (λ c, url_safe c = true) (UrlEncode.quote_plus s)
  ∧ Forall (λ c, c ∉ [0x26; 0x3D; 0x3F; 0x23; 0x20; 0x2F]%N) (UrlEncode.quote_plus s).
Proof.
  intros Hs.
  assert (Forall (λ c, url_safe c = true) (UrlEncode.quote_plus s)) as Hsafe.
  { unfold quote_plus. apply Forall_flat_map.
    eapply Forall_impl; [exact Hs|]. intros c Hc. simpl.
    cbv beta in Hc. assert (c < 0x110000) as Hc' by lia.
    destruct (unreserved c) eqn:Hu.
    - repeat constructor. unfold url_safe. by rewrite Hu.
    - destruct (c =? 0x20); [by repeat constructor|].
      apply Forall_flat_map.
      eapply Forall_impl; [by apply utf8_bytes|]. apply percent_safe. }
  split; [done|]. eapply Forall_impl; [exact Hsafe|].
  intros c Hc Hin. revert Hc.
  repeat (apply elem_of_cons in Hin as [->|Hin]; [by vm_compute|]).
  by apply elem_of_nil in Hin.
Qed.

Lemma quote_plus_is_url_safe_witness :
  Forall (λ c, url_safe c = true) (UrlEncode.quote_plus (py "1e+16 & more"))
  ∧ Forall (λ c, c ∉ [0x26; 0x3D; 0x3F; 0x23; 0x20; 0x2F]%N)
      (UrlEncode.quote_plus (py "1e+16 & more")).
Proof.
  apply (quote_plus_is_url_safe (py "1e+16 & more")).
  eapply Forall_impl; [apply py_bounded|]. intros c Hc. simpl in Hc. lia.
Defined.

(** The request of [_get_location]: for coordinates that start with a
    longitude and a latitude it asks for the regions URL followed by
    [?longitude=<lon>&latitude=<lat>&type=neiccatalog], where the two
    quoted numbers hold no character that could end or add a parameter,
    and whatever follows the latitude is not used.  It returns the first
    name of the answer, and raises [IndexError] for an answer without
    names, [KeyError] for a feed document and what the request raises.
    With fewer than two coordinates it raises [IndexError]. *)
Theorem get_location_request (world : World) (this : Earthquakes)
    (longitude latitude : number) (rest : list number) :
  let lon := UrlEncode.quote_plus (str_number longitude) in
  let lat := UrlEncode.quote_plus (str_number latitude) in
  let location_url :=
    usgs_regions_url this ++ py "?longitude=" ++ lon
    ++ py "&latitude=" ++ lat ++ py "&type=neiccatalog" in
  Forall (λ c, url_safe c = true) lon
  ∧ Forall (λ c, url_safe c = true) lat
  ∧ _get_location world this (longitude :: latitude :: rest) =
      match world location_url with
      | Ok (RegionsDoc (name :: _)) => Ok name
      | Ok (RegionsDoc []) => Raise IndexError
      | Ok (FeedDoc _) => Raise KeyError
      | Raise e => Raise e
      end
  ∧ _get_location world this [] = Raise IndexError
  ∧ _get_location world this [longitude] = Raise IndexError.
Proof.
  intros lon lat location_url.
  assert (∀ v, Forall (λ c, url_safe c = true)
                 (UrlEncode.quote_plus (str_number v))) as Hsafe.
  { intros v. unfold UrlEncode.quote_plus. apply Forall_flat_map.
    eapply Forall_impl; [apply str_number_bounded|]. intros c Hc. simpl.
    destruct (UrlEncode.unreserved c) eqn:Hu.
    - repeat constructor. unfold url_safe. by rewrite Hu.
    - destruct (c =? 0x20)%N; [by repeat constructor|].
      apply Forall_flat_map.
      eapply Forall_impl; [by apply utf8_bytes|]. apply percent_safe. }
  split; [apply Hsafe|]. split; [apply Hsafe|]. split; [|done].
  unfold _get_location.
  change (item (longitude :: latitude :: rest) 0) with (Ok longitude).
  change (item (longitude :: latitude :: rest) 1) with (Ok latitude).
  cbn [rbind]. rewrite location_url_text. fold lon lat location_url.
  unfold load_regions.
  destruct (world location_url) as [[fs|[|name names]]|e]; reflexivity.
Qed.

End UrlFacts.

(** ** The time conversion outside the years 1000 to 9999 *)

Section MoreTimeFacts.

Import PyFloat PyTime.
Local Open Scope Z_scope.

Lemma civil_from_days_year_bounds z :
  -100000000 < z < 100000000 ->
  let '(y, m, d) := civil_from_days z in
  -300000 < y < 300000
  /\ (2932897 <= z -> 10000 <= y)
  /\ (z < -719162 -> y <= 0)
  /\ (-719162 <= z < 2932897 -> 1 <= y <= 9999).
Proof.
  intros Hz. unfold civil_from_days.
  set (z' := z + 719468).
  set (era := z' / 146097).
  set (doe := z' mod 146097).
  set (yoe := (doe - doe / 1460 + doe / 36524 - doe / 146096) / 365).
  set (doy := doe - (365 * yoe + yoe / 4 - yoe / 100)).
  set (mp := (5 * doy + 2) / 153).
  assert (Hera : z' = era * 146097 + doe /\ 0 <= doe < 146097)
    by (subst era doe z'; Z.div_mod_to_equations; lia).
  destruct Hera as (Hzd & Hdoe).
  assert (Hyoe : 0 <= yoe < 400 /\ 0 <= doy < 366
                 /\ (doe <= 305 -> yoe = 0)
                 /\ (306 <= doe -> 1 <= yoe \/ 306 <= doy)
                 /\ (146037 <= doe -> yoe = 399 /\ 306 <= doy)
                 /\ (doe <= 146036 -> yoe = 399 -> doy <= 305)
                 /\ (yoe = 0 -> doy = doe))
    by (subst doy yoe; Z.div_mod_to_equations; lia).
  destruct Hyoe as (Hyoe & Hdoy & H1 & H2 & H3 & H4 & H5).
  assert (Hmp : 0 <= mp <= 11 /\ (306 <= doy -> 10 <= mp) /\ (doy <= 305 -> mp <= 9))
    by (subst mp; Z.div_mod_to_equations; lia).
  destruct Hmp as (Hmp & Hmplow & Hmphigh).
  clearbody mp doy yoe.
  destruct (Z.ltb_spec mp 10).
  - destruct (Z.leb_spec (mp + 3) 2); lia.
  - destruct (Z.leb_spec (mp - 9) 2); lia.
Qed.

Lemma gmtime_year_bounds sec :
  -4000000000000 <= sec <= 4000000000000 ->
  -300000 < tm_year (gmtime sec) < 300000
  /\ (253402300800 <= sec -> 10000 <= tm_year (gmtime sec))
  /\ (sec < -62135596800 -> tm_year (gmtime sec) <= 0)
  /\ (-62135596800 <= sec < 253402300800 -> 1 <= tm_year (gmtime sec) <= 9999).
Proof.
  intros Hs. unfold gmtime.
  pose proof (civil_from_days_year_bounds (sec / 86400)) as Hy.
  destruct (civil_from_days (sec / 86400)) as [[y m] d]. simpl.
  destruct Hy as (Hy1 & Hy2 & Hy3 & Hy4); [Z.div_mod_to_equations; lia|].
  split; [done|].
  split; [intros; apply Hy2; Z.div_mod_to_equations; lia|].
  split; [intros; apply Hy3; Z.div_mod_to_equations; lia|].
  intros; apply Hy4; Z.div_mod_to_equations; lia.
Qed.

Lemma convert_time_cases ms :
  -4000000000000000 < ms < 4000000000000000 ->
  _convert_time ms =
    if (-62135596800000 <=? ms) && (ms <? 253402300800000)
    then Ok (strftime_iso (gmtime (ms / 1000)))
    else Raise ValueError.
Proof.
  intros Hms.
  destruct (object_to_timeval_of_ms ms Hms) as (t & us & Ht & Htv).
  pose proof (gmtime_year_bounds (ms / 1000)) as Hy.
  destruct Hy as (Hy1 & Hy2 & Hy3 & Hy4); [Z.div_mod_to_equations; lia|].
  unfold _convert_time, fromtimestamp_utc. rewrite Ht, Htv.
  set (y := tm_year (gmtime (ms / 1000))) in *.
  assert ((y - 1900 <? - 2 ^ 31) || (2 ^ 31 <=? y - 1900) = false) as ->.
  { apply orb_false_intro; [apply Z.ltb_ge|apply Z.leb_gt];
      change (2 ^ 31) with 2147483648; lia. }
  destruct (Z.leb_spec (-62135596800000) ms) as [Hlo|Hlo];
    [destruct (Z.ltb_spec ms 253402300800000) as [Hhi|Hhi]|]; cbn [andb].
  - assert (1 <= y <= 9999) as Hyr by (apply Hy4; Z.div_mod_to_equations; lia).
    assert ((y <? 1) || (9999 <? y) = false) as ->; [|done].
    apply orb_false_intro; apply Z.ltb_ge; lia.
  - assert (10000 <= y) by (apply Hy2; Z.div_mod_to_equations; lia).
    assert ((y <? 1) || (9999 <? y) = true) as ->; [|done].
    apply orb_true_iff. right. apply Z.ltb_lt. lia.
  - assert (y <= 0) by (apply Hy3; Z.div_mod_to_equations; lia).
    assert ((y <? 1) || (9999 <? y) = true) as ->; [|done].
    apply orb_true_iff. left. apply Z.ltb_lt. lia.
Qed.

End MoreTimeFacts.

(** [_convert_time] on any timestamp within four million million seconds of
    the epoch: for the years 1 to 9999 it returns the text of the second
    [ms / 1000], rounded down, so that the milliseconds are dropped and
    never round the second up, also before 1970; outside these years it
    raises [ValueError].  Two timestamps of the same second give the same
    result. *)
Theorem convert_time_floor_or_ValueError (ms : Z) :
  (-4000000000000000 < ms < 4000000000000000)%Z →
  ((-62135596800000 <= ms < 253402300800000)%Z →
   _convert_time ms = Ok (PyTime.strftime_iso (PyTime.gmtime (ms / 1000)))
   ∧ (1 <= PyTime.tm_year (PyTime.gmtime (ms / 1000)) <= 9999)%Z
   ∧ PyTime.timegm (PyTime.gmtime (ms / 1000)) = (ms / 1000)%Z)
  ∧ ((ms < -62135596800000 ∨ 253402300800000 <= ms)%Z →
     _convert_time ms = Raise ValueError)
  ∧ (∀ ms' : Z,
       (-4000000000000000 < ms' < 4000000000000000)%Z →
       (ms' / 1000 = ms / 1000)%Z →
       _convert_time ms' = _convert_time ms).
Proof.
  intros Hms. split; [|split].
  - intros Hr. rewrite convert_time_cases by done.
    rewrite (proj2 (Z.leb_le _ _)), (proj2 (Z.ltb_lt _ _)) by lia.
    split; [done|]. split; [|apply timegm_gmtime].
    apply gmtime_year_bounds; Z.div_mod_to_equations; lia.
  - intros Hr. rewrite convert_time_cases by done.
    destruct Hr.
    + by rewrite (proj2 (Z.leb_gt _ _)) by lia.
    + rewrite (proj2 (Z.ltb_ge _ _)) by lia. by rewrite andb_false_r.
  - intros ms' Hms' Hsame. rewrite !convert_time_cases by done.
    rewrite Hsame.
    assert ((-62135596800000 <=? ms') = (-62135596800000 <=? ms))%Z as ->.
    { destruct (Z.leb_spec (-62135596800000) ms'), (Z.leb_spec (-62135596800000) ms);
        try done; exfalso; revert Hsame; Z.div_mod_to_equations; lia. }
    assert ((ms' <? 253402300800000) = (ms <? 253402300800000))%Z as ->; [|done].
    destruct (Z.ltb_spec ms' 253402300800000), (Z.ltb_spec ms 253402300800000);
      try done; exfalso; revert Hsame; Z.div_mod_to_equations; lia.
Qed.

Lemma convert_time_floor_or_ValueError_witness :
  _convert_time (-1) = Ok (PyTime.strftime_iso (PyTime.gmtime (-1 / 1000))).
Proof.
  apply (convert_time_floor_or_ValueError (-1)); lia.
Defined.

(** ** The methods when something fails, and when they are called again *)

Section MoreMethodFacts.

Variable world : World.

Lemma _filter_earthquakes_fails s e :
  load_features world (usgs_url (self s)) = Raise e →
  _filter_earthquakes world s = (s, Raise e).
Proof.
  intros Hf. unfold _filter_earthquakes. unfold_monad. by rewrite Hf.
Qed.

Lemma geocode_scan_stops this older q newer e :
  (∀ p, p ∈ older → ∃ location,
     _get_location world this (geometry_coordinates p) = Ok location) →
  _get_location world this (geometry_coordinates q) = Raise e →
  geocode_scan world this (older ++ q :: newer)
  = (filter (λ p, geocode_accepts world this p = true) older, Some e).
Proof.
  intros Hfound Hq. induction older as [|p older IH]; simpl.
  - by rewrite Hq.
  - rewrite IH by (intros; apply Hfound; by right).
    destruct (Hfound p) as [location Hloc]; [by left|]. rewrite Hloc.
    rewrite filter_cons.
    assert (geocode_accepts world this p = geocode_match this p location) as Hacc.
    { unfold geocode_accepts. by rewrite Hloc. }
    destruct (decide (geocode_accepts world this p = true)) as [H|H];
      rewrite Hacc in H; by destruct (geocode_match this p location).
Qed.

Lemma geocode_scan_same_configuration a b l :
  same_configuration a b → geocode_scan world a l = geocode_scan world b l.
Proof.
  intros (_ & Hurl & Hvals & Hty). induction l as [|q l IH]; [done|].
  simpl. rewrite IH.
  assert (_get_location world a (geometry_coordinates q)
          = _get_location world b (geometry_coordinates q)) as ->.
  { unfold _get_location. by rewrite Hurl. }
  destruct (_get_location world b (geometry_coordinates q)); [|done].
  unfold geocode_match. by rewrite Hvals, Hty.
Qed.

End MoreMethodFacts.

Lemma log_scan_app l1 l2 :
  snd (log_scan l1) = None →
  log_scan (l1 ++ l2)
  = (fst (log_scan l1) ++ fst (log_scan l2), snd (log_scan l2)).
Proof.
  induction l1 as [|q l1 IH]; simpl.
  - intros _. by destruct (log_scan l2).
  - destruct (_convert_time (properties_time q)); [|done].
    destruct (log_scan l1) as [lines stop]. simpl in *. intros ->.
    by rewrite IH.
Qed.

Lemma log_scan_stops q rest e :
  _convert_time (properties_time q) = Raise e →
  log_scan (q :: rest) = ([], Some e).
Proof. intros Hq. simpl. by rewrite Hq. Qed.

(** [_filter_earthquakes] assigns the list: what it returns and leaves in
    the instance does not depend on what the list held before, calling it
    again changes nothing, and it neither prints nor touches the log. *)
Theorem text_filter_replaces_list (world : World) (s : state)
    (fs before : list Feature) :
  load_features world (usgs_url (self s)) = Ok fs →
  ∃ s1 kept,
    _filter_earthquakes world s = (s1, Ok kept)
    ∧ _filter_earthquakes world
        {| self := with_filtered_earthquakes (self s) before;
           stdout := stdout s |} = (s1, Ok kept)
    ∧ _filter_earthquakes world s1 = (s1, Ok kept)
    ∧ filtered_earthquakes (self s1) = kept
    ∧ stdout s1 = stdout s
    ∧ filtered_earthquakes_log (self s1) = filtered_earthquakes_log (self s).
Proof.
  intros Hf. do 2 eexists.
  split; [by apply _filter_earthquakes_spec|].
  split; [by rewrite (_filter_earthquakes_spec world _ fs)|].
  split; [by rewrite (_filter_earthquakes_spec world _ fs)|].
  done.
Qed.


(** The geocode strategy looks every entry up, whatever its event type,
    and stops at the first lookup that fails, going from the oldest entry:
    the exception of that lookup is raised, the entries kept before it stay
    appended to the list, and [log_earthquakes] prints nothing. *)
Theorem lookup_failure_aborts (world : World) (s : state)
    (fs older newer : list Feature) (q : Feature) (e : exn) :
  load_features world (usgs_url (self s)) = Ok fs →
  reverse fs = older ++ q :: newer →
  (∀ p, p ∈ older → ∃ location,
     _get_location world (self s) (geometry_coordinates p) = Ok location) →
  _get_location world (self s) (geometry_coordinates q) = Raise e →
  let s' :=
    {| self := with_filtered_earthquakes (self s)
                 (filtered_earthquakes (self s)
                  ++ filter (λ p, geocode_accepts world (self s) p = true) older);
       stdout := stdout s |} in
  _filter_earthquakes_by_coordinates world s = (s', Raise e)
  ∧ log_earthquakes world s = (s', Raise e).
Proof.
  intros Hf Hrev Hfound Hq s'.
  rewrite (_filter_earthquakes_by_coordinates_spec world _ fs) by done.
  rewrite (log_earthquakes_spec world _ fs) by done.
  by rewrite Hrev, (geocode_scan_stops world _ _ _ _ e).
Qed.

(** When the time of a kept entry cannot be converted, [log_earthquakes]
    has printed the lines of the entries before it, prints none for it or
    for the later ones, and raises the exception of the conversion. *)
Theorem log_stops_at_failed_conversion (world : World) (s : state)
    (fs printed rest : list Feature) (q : Feature) (e : exn) :
  load_features world (usgs_url (self s)) = Ok fs →
  (∀ p, p ∈ fs → ∃ location,
     _get_location world (self s) (geometry_coordinates p) = Ok location) →
  filtered_earthquakes (self s)
  ++ filter (λ p, geocode_accepts world (self s) p = true) (reverse fs)
  = printed ++ q :: rest →
  (∀ p, p ∈ printed → ∃ time, _convert_time (properties_time p) = Ok time) →
  _convert_time (properties_time q) = Raise e →
  ∃ s' lines,
    log_earthquakes world s = (s', Raise e)
    ∧ stdout s' = stdout s ++ lines
    ∧ Forall2 printed_as printed lines
    ∧ filtered_earthquakes (self s') = printed ++ q :: rest.
Proof.
  intros Hf Hfound Hlist Hprinted Hq.
  rewrite (log_earthquakes_spec world _ fs) by done.
  rewrite geocode_scan_found
    by (intros p Hp; apply Hfound; by apply elem_of_reverse).
  cbn [fst snd]. rewrite Hlist.
  destruct (log_scan_converted printed Hprinted) as [Hstop Hlines].
  rewrite (log_scan_app printed) by done.
  rewrite (log_scan_stops q rest e) by done.
  cbn [fst snd outcome]. rewrite app_nil_r. by do 2 eexists.
Qed.


(** [log_earthquakes] prints a line for every entry the list already held
    and then for the entries it matched; called again on the same instance
    it prints all of these again and the matched entries once more. *)
Theorem log_twice_repeats_lines (world : World) (s : state) (fs : list Feature) :
  load_features world (usgs_url (self s)) = Ok fs →
  (∀ p, p ∈ fs → ∃ location,
     _get_location world (self s) (geometry_coordinates p) = Ok location) →
  (∀ p, p ∈ filtered_earthquakes (self s) →
     ∃ time, _convert_time (properties_time p) = Ok time) →
  (∀ p, p ∈ fs → geocode_accepts world (self s) p = true →
     ∃ time, _convert_time (properties_time p) = Ok time) →
  let matched :=
    filter (λ p, geocode_accepts world (self s) p = true) (reverse fs) in
  ∃ s1 s2 old new,
    Forall2 printed_as (filtered_earthquakes (self s)) old
    ∧ Forall2 printed_as matched new
    ∧ log_earthquakes world s = (s1, Ok tt)
    ∧ stdout s1 = stdout s ++ old ++ new
    ∧ filtered_earthquakes (self s1) = filtered_earthquakes (self s) ++ matched
    ∧ log_earthquakes world s1 = (s2, Ok tt)
    ∧ stdout s2 = stdout s1 ++ old ++ new ++ new
    ∧ filtered_earthquakes (self s2)
      = filtered_earthquakes (self s) ++ matched ++ matched.
Proof.
  intros Hf Hfound Hold Hnew matched.
  assert (∀ p, p ∈ matched → ∃ time, _convert_time (properties_time p) = Ok time)
    as Hmatched.
  { intros p [Hacc Hp]%list_elem_of_filter.
    apply Hnew; [by apply elem_of_reverse|done]. }
  destruct (log_scan_converted _ Hold) as [Hstop1 Hlines1].
  destruct (log_scan_converted _ Hmatched) as [Hstop2 Hlines2].
  assert (geocode_scan world (self s) (reverse fs) = (matched, None)) as Hscan.
  { apply geocode_scan_found. intros p Hp. apply Hfound. by apply elem_of_reverse. }
  exists
    {| self := with_filtered_earthquakes_log
                 (with_filtered_earthquakes (self s)
                    (filtered_earthquakes (self s) ++ matched))
                 (filtered_earthquakes_log (self s)
                  ++ concat (fst (log_scan (filtered_earthquakes (self s)))
                             ++ fst (log_scan matched)));
       stdout := stdout s ++ fst (log_scan (filtered_earthquakes (self s)))
                 ++ fst (log_scan matched) |}.
  eexists. exists (fst (log_scan (filtered_earthquakes (self s)))),
    (fst (log_scan matched)).
  split; [done|]. split; [done|].
  assert (log_scan (filtered_earthquakes (self s) ++ matched)
          = (fst (log_scan (filtered_earthquakes (self s))) ++ fst (log_scan matched),
             None)) as Hlog1.
  { rewrite log_scan_app by done. by rewrite Hstop2. }
  split.
  { rewrite (log_earthquakes_spec world _ fs) by done.
    rewrite Hscan. cbn [fst snd]. by rewrite Hlog1. }
  split; [done|]. split; [done|].
  rewrite (log_earthquakes_spec world _ fs) by done.
  cbn [self stdout].
  rewrite (geocode_scan_same_configuration world _ (self s)) by done.
  rewrite Hscan. cbn [fst snd filtered_earthquakes with_filtered_earthquakes_log
                      with_filtered_earthquakes].
  assert (log_scan ((filtered_earthquakes (self s) ++ matched) ++ matched)
          = ((fst (log_scan (filtered_earthquakes (self s))) ++ fst (log_scan matched))
             ++ fst (log_scan matched), None)) as Hlog2.
  { rewrite log_scan_app by (by rewrite Hlog1). by rewrite Hlog1, Hstop2. }
  rewrite Hlog2. cbn [fst snd outcome].
  split; [reflexivity|]. cbn [stdout self filtered_earthquakes
    with_filtered_earthquakes_log with_filtered_earthquakes].
  by rewrite <- !app_assoc.
Qed.

(** No method changes the URLs, the region labels or the event type of
    the instance; the two filter methods neither print nor touch the log,
    and [log_earthquakes] changes the list only as the filter it calls. *)
Theorem methods_keep_configuration (world : World) (s : state) :
  let s1 := fst (_filter_earthquakes world s) in
  let s2 := fst (_filter_earthquakes_by_coordinates world s) in
  let s3 := fst (log_earthquakes world s) in
  same_configuration (self s) (self s1)
  ∧ same_configuration (self s) (self s2)
  ∧ same_configuration (self s) (self s3)
  ∧ stdout s1 = stdout s
  ∧ filtered_earthquakes_log (self s1) = filtered_earthquakes_log (self s)
  ∧ stdout s2 = stdout s
  ∧ filtered_earthquakes_log (self s2) = filtered_earthquakes_log (self s)
  ∧ filtered_earthquakes (self s3) = filtered_earthquakes (self s2).
Proof.
  destruct (load_features world (usgs_url (self s))) as [fs|e] eqn:Hf.
  - rewrite (_filter_earthquakes_spec world _ fs) by done.
    rewrite (_filter_earthquakes_by_coordinates_spec world _ fs) by done.
    rewrite (log_earthquakes_spec world _ fs) by done. cbn zeta.
    by destruct (snd (geocode_scan world (self s) (reverse fs))).
  - rewrite (_filter_earthquakes_fails world _ e) by done.
    rewrite (_filter_earthquakes_by_coordinates_fails world _ e) by done.
    rewrite (log_earthquakes_fails world _ e) by done. done.
Qed.


(** The geocode strategy on a new instance whose lookups all answer: it
    returns and stores, in the order of the reversed feed, exactly the feed
    entries whose event type is the configured one and for which the
    regions service answers with one of the region labels. *)
Theorem geocode_filter_keeps_exactly_accepted
    (world : World) (s : state) (fs : list Feature) :
  load_features world (usgs_url (self s)) = Ok fs →
  filtered_earthquakes (self s) = [] →
  (∀ p, p ∈ fs → ∃ location,
     _get_location world (self s) (geometry_coordinates p) = Ok location) →
  ∃ emitted s',
    _filter_earthquakes_by_coordinates world s = (s', Ok emitted)
    ∧ filtered_earthquakes (self s') = emitted
    ∧ emitted `sublist_of` reverse fs
    ∧ ∀ q, q ∈ emitted ↔
        q ∈ fs
        ∧ properties_type q = filter_type (self s)
        ∧ ∃ location,
            _get_location world (self s) (geometry_coordinates q) = Ok location
            ∧ location ∈ filter_values (self s).
Proof.
  intros Hf Hempty Hfound.
  rewrite (_filter_earthquakes_by_coordinates_found world _ fs) by done.
  rewrite Hempty. cbn [app]. do 2 eexists. split; [reflexivity|].
  split; [done|]. split; [apply sublist_filter|].
  intros q. rewrite list_elem_of_filter, elem_of_reverse.
  unfold geocode_accepts, geocode_match. split.
  - intros [Hacc Hq]. split; [done|].
    destruct (_get_location world (self s) (geometry_coordinates q))
      as [location|]; [|done].
    apply andb_true_iff in Hacc as [Hty Hin].
    apply bool_decide_eq_true in Hty, Hin. eauto.
  - intros (Hq & Hty & location & -> & Hin). split; [|done].
    apply andb_true_iff. by rewrite !bool_decide_eq_true.
Qed.

Lemma geocode_filter_keeps_exactly_accepted_witness :
  ∃ emitted s',
    _filter_earthquakes_by_coordinates Sample.world Sample.fresh = (s', Ok emitted)
    ∧ filtered_earthquakes (self s') = emitted
    ∧ emitted `sublist_of` reverse Sample.feed
    ∧ ∀ q, q ∈ emitted ↔
        q ∈ Sample.feed
        ∧ properties_type q = filter_type (self Sample.fresh)
        ∧ ∃ location,
            _get_location Sample.world (self Sample.fresh)
              (geometry_coordinates q) = Ok location
            ∧ location ∈ filter_values (self Sample.fresh).
Proof.
  apply (geocode_filter_keeps_exactly_accepted Sample.world Sample.fresh Sample.feed);
    [reflexivity|reflexivity|apply sample_lookups_answer].
Defined.

Lemma text_filter_replaces_list_witness :
  ∃ s1 kept,
    _filter_earthquakes Sample.world Sample.fresh = (s1, Ok kept)
    ∧ _filter_earthquakes Sample.world
        {| self := with_filtered_earthquakes (self Sample.fresh) [Sample.tonopah];
           stdout := stdout Sample.fresh |} = (s1, Ok kept)
    ∧ _filter_earthquakes Sample.world s1 = (s1, Ok kept)
    ∧ filtered_earthquakes (self s1) = kept
    ∧ stdout s1 = stdout Sample.fresh
    ∧ filtered_earthquakes_log (self s1)
      = filtered_earthquakes_log (self Sample.fresh).
Proof.
  apply (text_filter_replaces_list Sample.world Sample.fresh Sample.feed
           [Sample.tonopah]).
  reflexivity.
Defined.

Lemma sample_missing_page_lookups p :
  p ∈ [Sample.greenville; Sample.ferndale] → ∃ location,
    _get_location Sample.world_missing_page (self Sample.fresh)
      (geometry_coordinates p) = Ok location.
Proof.
  revert p. apply Forall_forall.
  repeat constructor; eexists; vm_compute; reflexivity.
Qed.

Lemma lookup_failure_aborts_witness :
  _filter_earthquakes_by_coordinates Sample.world_missing_page Sample.fresh
  = ({| self := with_filtered_earthquakes (self Sample.fresh)
                  [Sample.greenville; Sample.ferndale];
        stdout := [] |}, Raise URLError)
  ∧ log_earthquakes Sample.world_missing_page Sample.fresh
    = ({| self := with_filtered_earthquakes (self Sample.fresh)
                    [Sample.greenville; Sample.ferndale];
          stdout := [] |}, Raise URLError).
Proof.
  exact (lookup_failure_aborts Sample.world_missing_page Sample.fresh
           [Sample.mammoth_blast; Sample.ferndale; Sample.greenville]
           [Sample.greenville; Sample.ferndale] [] Sample.mammoth_blast URLError
           eq_refl eq_refl sample_missing_page_lookups eq_refl).
Defined.

Lemma sample_far_future_lookups p :
  p ∈ [Sample.far_future; Sample.greenville] → ∃ location,
    _get_location Sample.world_far_future (self Sample.fresh)
      (geometry_coordinates p) = Ok location.
Proof.
  revert p. apply Forall_forall.
  repeat constructor; eexists; vm_compute; reflexivity.
Qed.

Lemma sample_greenville_time p :
  p ∈ [Sample.greenville] →
  ∃ time, _convert_time (properties_time p) = Ok time.
Proof.
  intros ->%list_elem_of_singleton. eexists. vm_compute. reflexivity.
Qed.

Lemma log_stops_at_failed_conversion_witness :
  ∃ s' lines,
    log_earthquakes Sample.world_far_future Sample.fresh = (s', Raise ValueError)
    ∧ stdout s' = stdout Sample.fresh ++ lines
    ∧ Forall2 printed_as [Sample.greenville] lines
    ∧ filtered_earthquakes (self s')
      = [Sample.greenville] ++ Sample.far_future :: [].
Proof.
  apply (log_stops_at_failed_conversion Sample.world_far_future Sample.fresh
           [Sample.far_future; Sample.greenville]);
    [reflexivity|apply sample_far_future_lookups|reflexivity
    |apply sample_greenville_time|reflexivity].
Defined.

Lemma sample_fresh_times p :
  p ∈ filtered_earthquakes (self Sample.fresh) →
  ∃ time, _convert_time (properties_time p) = Ok time.
Proof. intros Hp. by apply elem_of_nil in Hp. Qed.

Lemma log_twice_repeats_lines_witness :
  ∃ s1 s2 old new,
    Forall2 printed_as (filtered_earthquakes (self Sample.fresh)) old
    ∧ Forall2 printed_as
        (filter (λ p, geocode_accepts Sample.world (self Sample.fresh) p = true)
           (reverse Sample.feed)) new
    ∧ log_earthquakes Sample.world Sample.fresh = (s1, Ok tt)
    ∧ stdout s1 = stdout Sample.fresh ++ old ++ new
    ∧ filtered_earthquakes (self s1)
      = filtered_earthquakes (self Sample.fresh)
        ++ filter (λ p, geocode_accepts Sample.world (self Sample.fresh) p = true)
             (reverse Sample.feed)
    ∧ log_earthquakes Sample.world s1 = (s2, Ok tt)
    ∧ stdout s2 = stdout s1 ++ old ++ new ++ new
    ∧ filtered_earthquakes (self s2)
      = filtered_earthquakes (self Sample.fresh)
        ++ filter (λ p, geocode_accepts Sample.world (self Sample.fresh) p = true)
             (reverse Sample.feed)
        ++ filter (λ p, geocode_accepts Sample.world (self Sample.fresh) p = true)
             (reverse Sample.feed).
Proof.
  exact (log_twice_repeats_lines Sample.world Sample.fresh Sample.feed
           eq_refl sample_lookups_answer sample_fresh_times sample_times_convert).
Defined.

